(** * MCP weather client: the tool-call orchestration of [src/index.ts]

    A shallow embedding of the class [MCPClient]: its constructor,
    [connectToServer] and [processQuery].  The two remote systems the class
    talks to (the chat-completions endpoint and the tool backend reached over
    stdio) are oracles of a [Host]; every interaction with them, and every line
    written to the console, is recorded in a trace, in program order.
    Exceptions are values of an error monad whose state survives a throw, as
    the effects performed before a JavaScript [throw] do. *)

From Stdlib Require Import String Ascii List Bool Arith Lia.
From Stdlib Require Import Floats.PrimFloat.
Import ListNotations.

Set Warnings "-inexact-float,-register-all".
Set Implicit Arguments.
Open Scope string_scope.
Open Scope list_scope.

(** ** JavaScript values *)

(** The values [JSON.parse] produces; a JavaScript number is a binary64. *)
Inductive json : Type :=
| JNull
| JBool (b : bool)
| JNumber (x : float)
| JString (s : string)
| JArray (items : list json)
| JObject (fields : list (string * json)).

(** A thrown value: an [Error] object with its [name] and [message]. *)
Record exn : Type := Exn { exn_name : string; exn_message : string }.

Definition Error (msg : string) : exn := Exn "Error" msg.
Definition TypeError (msg : string) : exn := Exn "TypeError" msg.

(** [s.endsWith(suffix)]: the last [length suffix] code units of [s] are
    [suffix]. *)
Definition endsWith (s suffix : string) : bool :=
  let n := String.length s in
  let m := String.length suffix in
  if (m <=? n)%nat then String.eqb (substring (n - m) m s) suffix else false.

(** [x || ''] on a string that may be [null] or [undefined]: the empty string
    is falsy as well. *)
Definition or_empty (x : option string) : string :=
  match x with
  | Some s => s
  | None => ""
  end.

(** [x || d] on an optional string. *)
Definition or_default (x : option string) (d : string) : string :=
  match x with
  | Some EmptyString => d
  | Some s => s
  | None => d
  end.

(** ** Data of the two protocols *)

(** A tool descriptor of the catalog [listTools] resolves to.  The SDK
    client only resolves to answers it has checked against its schema, in
    which [name] is a required string and [description] is optional. *)
Record MCPTool : Type := {
  mcp_name : string;
  mcp_description : option string;
  mcp_inputSchema : json
}.

Record ListToolsResult : Type := { lt_tools : list MCPTool }.

(** [client.callTool] resolves to an object of which the program reads
    [content] only.  The backend reports the failure of a tool in the
    result itself, as [isError: true]; a rejected promise is an [exn]. *)
Record CallToolResult : Type := {
  result_content : json;
  result_isError : option bool
}.

Record FunctionDefinition : Type := {
  fn_name : string;
  fn_description : string;
  fn_parameters : json;
  fn_strict : option bool
}.

Record ChatCompletionTool : Type := {
  tool_type : string;
  tool_function : FunctionDefinition
}.

Record FunctionCall : Type := {
  call_name : string;
  call_arguments : string
}.

Record ToolCall : Type := {
  tc_id : string;
  tc_type : string;
  tc_function : FunctionCall
}.

Inductive Role : Type := system | user | assistant | tool.

(** [ChatCompletionMessageParam], with the properties the program writes. *)
Record Message : Type := {
  msg_role : Role;
  msg_content : option string;
  msg_tool_calls : option (list ToolCall);
  msg_tool_call_id : option string
}.

(** The message of a response: [tool_calls] is an array, or is absent. *)
Record ChatCompletionMessage : Type := {
  content : option string;
  tool_calls : option (list ToolCall)
}.

Record Choice : Type := { message : ChatCompletionMessage }.

Record ChatCompletion : Type := { choices : list Choice }.

(** The body of a chat-completion request; a property the program leaves out
    is [None]. *)
Record ChatRequest : Type := {
  req_model : string;
  req_messages : list Message;
  req_tools : option (list ChatCompletionTool);
  req_temperature : option float;
  req_top_p : option float;
  req_top_k : option float;
  req_frequency_penalty : option float;
  req_n : option float;
  req_max_tokens : option float;
  req_stop : option json;
  req_stream : bool;
  req_response_format : option string
}.

(** ** The process and the object *)

Record ProcessEnv : Type := {
  OPENAI_API_KEY : option string;
  OPENAI_API_BASE : option string;
  OPENAI_MODEL : option string
}.

Record OpenAIConfig : Type := { apiKey : string; baseURL : string }.

Record ClientInfo : Type := { client_name : string; client_version : string }.

Record StdioServerParameters : Type := {
  command : string;
  args : list string
}.

(** The fields of [MCPClient]; [client] is [None] until [connectToServer]
    assigns it. *)
Record MCPClient : Type := {
  openai : OpenAIConfig;
  client : option ClientInfo;
  tools : list ChatCompletionTool
}.

(** What a console call prints after its label. *)
Inductive printed : Type :=
| PStr (s : string)
| PTools (ts : list ChatCompletionTool)
| PRequest (r : ChatRequest)
| PResult (r : CallToolResult)
| PMessages (ms : list Message)
| PExn (e : exn).

(** The observable actions of the program, each remote one with its outcome. *)
Inductive event : Type :=
| ConsoleLog (line : list printed)
| ConsoleError (line : list printed)
| NewTransport (params : StdioServerParameters)
| Connect (params : StdioServerParameters) (out : exn + unit)
| ListTools (out : exn + ListToolsResult)
| ChatCreate (req : ChatRequest) (out : exn + ChatCompletion)
| CallTool (name : string) (arguments : json) (out : exn + CallToolResult).

(** The environment of the program.  [W] is the state of the outside world;
    each remote call answers from it and moves it.  [JSON_parse] answers
    [inl] with the [SyntaxError] it throws. *)
Record Host (W : Type) : Type := {
  process_env : ProcessEnv;
  JSON_parse : string -> exn + json;
  JSON_stringify : json -> string;
  transport_connect : StdioServerParameters -> W -> (exn + unit) * W;
  client_listTools : W -> (exn + ListToolsResult) * W;
  client_callTool : string -> json -> W -> (exn + CallToolResult) * W;
  chat_completions_create : ChatRequest -> W -> (exn + ChatCompletion) * W
}.

(** ** The monad of the methods: state, trace and exceptions *)

Record St (W : Type) : Type := {
  world : W;
  trace : list event;
  this : MCPClient
}.

Definition M (W A : Type) : Type := St W -> (exn + A) * St W.

Definition ret {W A} (a : A) : M W A := fun s => (inr a, s).

Definition bind {W A B} (m : M W A) (k : A -> M W B) : M W B :=
  fun s =>
    match m s with
    | (inr a, s') => k a s'
    | (inl e, s') => (inl e, s')
    end.

Definition throw {W A} (e : exn) : M W A := fun s => (inl e, s).

(** [try { m } catch (error) { h error }] *)
Definition try_catch {W A} (m : M W A) (h : exn -> M W A) : M W A :=
  fun s =>
    match m s with
    | (inr a, s') => (inr a, s')
    | (inl e, s') => h e s'
    end.

Declare Scope js_scope.
Delimit Scope js_scope with js.
Notation "x <- m ;; k" := (bind m (fun x => k))
  (at level 100, m at next level, right associativity) : js_scope.
Notation "m ;; k" := (bind m (fun _ => k))
  (at level 100, right associativity) : js_scope.
Open Scope js_scope.

Definition emit {W} (ev : event) : M W unit :=
  fun s => (inr tt, {| world := world s; trace := trace s ++ [ev]; this := this s |}).

Definition console_log {W} (line : list printed) : M W unit := emit (ConsoleLog line).
Definition console_error {W} (line : list printed) : M W unit := emit (ConsoleError line).

Definition get_this {W} : M W MCPClient := fun s => (inr (this s), s).

Definition set_this {W} (c : MCPClient) : M W unit :=
  fun s => (inr tt, {| world := world s; trace := trace s; this := c |}).

(** A remote call: the oracle answers from the world, the event records the
    call with its outcome, and a rejection is thrown at the [await]. *)
Definition remote {W A} (oracle : W -> (exn + A) * W) (ev : exn + A -> event) : M W A :=
  fun s =>
    let (out, w') := oracle (world s) in
    (out, {| world := w'; trace := trace s ++ [ev out]; this := this s |}).

(** [for (const x of xs) body], threading the variables the body updates. *)
Fixpoint for_of {W X V} (xs : list X) (body : X -> V -> M W V) (vars : V) : M W V :=
  match xs with
  | [] => ret vars
  | x :: rest => vars' <- body x vars ;; for_of rest body vars'
  end.

(** ** The constructor *)

Definition default_baseURL : string := "https://api.siliconflow.cn/v1".

Definition new_MCPClient (env : ProcessEnv) : exn + MCPClient :=
  match OPENAI_API_KEY env with
  | None | Some EmptyString => inl (Error "OPENAI_API_KEY is required")
  | Some key =>
      inr {| openai := {| apiKey := key;
                          baseURL := or_default (OPENAI_API_BASE env) default_baseURL |};
             client := None;
             tools := [] |}
  end.

(** ** [connectToServer] *)

(** The parameter schema the program writes into every declaration. *)
Definition latlon_schema : json :=
  JObject
    [("type", JString "object");
     ("properties",
      JObject
        [("latitude", JObject [("type", JString "number"); ("description", JString "纬度")]);
         ("longitude", JObject [("type", JString "number"); ("description", JString "经度")])]);
     ("required", JArray [JString "latitude"; JString "longitude"])].

(** The arrow function mapped over [response.tools]. *)
Definition register_tool (t : MCPTool) : ChatCompletionTool :=
  {| tool_type := "function";
     tool_function :=
       {| fn_name := mcp_name t;
          fn_description := or_empty (mcp_description t);
          fn_parameters := latlon_schema;
          fn_strict := None |} |}.

Definition weather_client : ClientInfo :=
  {| client_name := "weather-client"; client_version := "1.0.0" |}.

Definition connectToServer {W} (H : Host W) (serverPath : string) : M W unit :=
  let isJS := endsWith serverPath ".js" in
  let isPython := endsWith serverPath ".py" in
  if negb isJS && negb isPython then
    throw (Error "Server script must be a .py or .js file")
  else
    let cmd := if isPython then "python" else "node" in
    console_log [PStr ("正在启动 " ++ cmd ++ " 服务器: " ++ serverPath)] ;;
    try_catch
      (let transport := {| command := cmd; args := [serverPath] |} in
       emit (NewTransport transport) ;;
       self <- get_this ;;
       set_this {| openai := openai self; client := Some weather_client; tools := tools self |} ;;
       remote (transport_connect H transport) (Connect transport) ;;
       response <- remote (client_listTools H) ListTools ;;
       self <- get_this ;;
       set_this {| openai := openai self; client := client self;
                   tools := map register_tool (lt_tools response) |} ;;
       self <- get_this ;;
       console_log [PStr "转换后的工具列表:"; PTools (tools self)])
      (fun error =>
         console_error [PStr "连接服务器失败:"; PExn error] ;;
         throw error).

(** ** [processQuery] *)

Definition system_prompt : string := "你是一个天气助手，可以帮助用户查询天气信息。".

Definition initial_messages (query : string) : list Message :=
  [ {| msg_role := system; msg_content := Some system_prompt;
       msg_tool_calls := None; msg_tool_call_id := None |};
    {| msg_role := user; msg_content := Some query;
       msg_tool_calls := None; msg_tool_call_id := None |} ].

(** The arrow function mapped over [this.tools] in [requestParams]. *)
Definition declare_tool (t : ChatCompletionTool) : ChatCompletionTool :=
  {| tool_type := "function";
     tool_function :=
       {| fn_name := fn_name (tool_function t);
          fn_description := fn_description (tool_function t);
          fn_parameters := latlon_schema;
          fn_strict := Some false |} |}.

Definition requestParams (registered : list ChatCompletionTool) (messages : list Message)
  : ChatRequest :=
  {| req_model := "deepseek-ai/DeepSeek-V2.5";
     req_messages := messages;
     req_tools := Some (map declare_tool registered);
     req_temperature := Some 0.7%float;
     req_top_p := Some 0.7%float;
     req_top_k := Some 50%float;
     req_frequency_penalty := Some 0.5%float;
     req_n := Some 1%float;
     req_max_tokens := Some 512%float;
     req_stop := Some JNull;
     req_stream := false;
     req_response_format := Some "text" |}.

Definition finalParams (env : ProcessEnv) (messages : list Message) : ChatRequest :=
  {| req_model := or_default (OPENAI_MODEL env) "gpt-4";
     req_messages := messages;
     req_tools := None;
     req_temperature := Some 0.7%float;
     req_top_p := Some 0.7%float;
     req_top_k := None;
     req_frequency_penalty := None;
     req_n := None;
     req_max_tokens := Some 512%float;
     req_stop := None;
     req_stream := false;
     req_response_format := None |}.

(** The two messages pushed for one tool call. *)
Definition call_message (toolCall : ToolCall) : Message :=
  {| msg_role := assistant; msg_content := None;
     msg_tool_calls := Some [toolCall]; msg_tool_call_id := None |}.

Definition result_message {W} (H : Host W) (toolCall : ToolCall) (result : CallToolResult)
  : Message :=
  {| msg_role := tool;
     msg_content := Some (JSON_stringify H (result_content result));
     msg_tool_calls := None;
     msg_tool_call_id := Some (tc_id toolCall) |}.

(** The [TypeError]s of a property read on [undefined]. *)
Definition no_message : exn :=
  TypeError "Cannot read properties of undefined (reading 'message')".

Definition unconnected : exn :=
  TypeError "Cannot read properties of undefined (reading 'callTool')".

(** [completion.choices[0].message]: reading [message] of [undefined] throws. *)
Definition first_message {W} (completion : ChatCompletion) : M W ChatCompletionMessage :=
  match choices completion with
  | c :: _ => ret (message c)
  | [] => throw no_message
  end.

Definition lift_result {W A} (r : exn + A) : M W A :=
  match r with
  | inr a => ret a
  | inl e => throw e
  end.

(** [this.client.callTool(...)]: reading [callTool] of an unassigned [client]
    throws before anything is sent. *)
Definition callTool {W} (H : Host W) (name : string) (arguments : json) : M W CallToolResult :=
  self <- get_this ;;
  match client self with
  | Some _ => remote (client_callTool H name arguments) (CallTool name arguments)
  | None => throw unconnected
  end.

(** The body of the loop over [assistantMessage.tool_calls]; the variables it
    updates are the arrays [results] and [messages]. *)
Definition dispatch {W} (H : Host W) (toolCall : ToolCall)
  (vars : list CallToolResult * list Message) : M W (list CallToolResult * list Message) :=
  let (results, messages) := vars in
  let toolName := call_name (tc_function toolCall) in
  toolArgs <- lift_result (JSON_parse H (call_arguments (tc_function toolCall))) ;;
  result <- callTool H toolName toolArgs ;;
  console_log [PStr "请求tool响应:"; PResult result] ;;
  ret (results ++ [result],
       messages ++ [call_message toolCall; result_message H toolCall result]).

Definition processQuery {W} (H : Host W) (query : string) : M W string :=
  try_catch
    (let messages := initial_messages query in
     self <- get_this ;;
     let params := requestParams (tools self) messages in
     console_log [PStr "请求参数:"; PRequest params] ;;
     completion <- remote (chat_completions_create H params) (ChatCreate params) ;;
     assistantMessage <- first_message completion ;;
     match tool_calls assistantMessage with
     | Some calls =>
         vars <- for_of calls (dispatch H) ([], messages) ;;
         let messages := snd vars in
         console_log [PStr "请求last响应messages:"; PMessages messages] ;;
         let params := finalParams (process_env H) messages in
         finalResponse <- remote (chat_completions_create H params) (ChatCreate params) ;;
         finalMessage <- first_message finalResponse ;;
         ret (or_empty (content finalMessage))
     | None => ret (or_empty (content assistantMessage))
     end)
    (fun error =>
       console_error [PStr "处理查询失败:"; PExn error] ;;
       throw error).

(** ** Reading a trace *)

(** The chat-completion requests of a trace with their outcomes, in order. *)
Fixpoint chat_exchanges (tr : list event) : list (ChatRequest * (exn + ChatCompletion)) :=
  match tr with
  | [] => []
  | ChatCreate req out :: rest => (req, out) :: chat_exchanges rest
  | _ :: rest => chat_exchanges rest
  end.

Definition chat_requests (tr : list event) : list ChatRequest :=
  map fst (chat_exchanges tr).

(** The backend invocations of a trace, in order: tool name and the
    structured arguments sent. *)
Fixpoint backend_calls (tr : list event) : list (string * json) :=
  match tr with
  | [] => []
  | CallTool name arguments _ :: rest => (name, arguments) :: backend_calls rest
  | _ :: rest => backend_calls rest
  end.

(** The results of the backend invocations that resolved. *)
Fixpoint backend_results (tr : list event) : list CallToolResult :=
  match tr with
  | [] => []
  | CallTool _ _ (inr result) :: rest => result :: backend_results rest
  | _ :: rest => backend_results rest
  end.

(** The backend invocations that were rejected. *)
Fixpoint backend_failures (tr : list event) : list exn :=
  match tr with
  | [] => []
  | CallTool _ _ (inl e) :: rest => e :: backend_failures rest
  | _ :: rest => backend_failures rest
  end.

(** The server processes the trace launches. *)
Fixpoint launches (tr : list event) : list StdioServerParameters :=
  match tr with
  | [] => []
  | Connect params _ :: rest => params :: launches rest
  | _ :: rest => launches rest
  end.

Fixpoint transports (tr : list event) : list StdioServerParameters :=
  match tr with
  | [] => []
  | NewTransport params :: rest => params :: transports rest
  | _ :: rest => transports rest
  end.

(** The catalogs [listTools] returned. *)
Fixpoint catalogs (tr : list event) : list (list MCPTool) :=
  match tr with
  | [] => []
  | ListTools (inr response) :: rest => lt_tools response :: catalogs rest
  | _ :: rest => catalogs rest
  end.

(** Everything written to the console, [console.log] and [console.error]. *)
Fixpoint console_lines (tr : list event) : list (list printed) :=
  match tr with
  | [] => []
  | ConsoleLog line :: rest => line :: console_lines rest
  | ConsoleError line :: rest => line :: console_lines rest
  | _ :: rest => console_lines rest
  end.

(** The structured value [JSON.parse] gives for the arguments of a call. *)
Definition parsed_arguments {W} (H : Host W) (toolCall : ToolCall) : exn + json :=
  JSON_parse H (call_arguments (tc_function toolCall)).

(** The invocation sent for a call whose arguments parse to [v]. *)
Definition sent_as {W} (H : Host W) (toolCall : ToolCall) (sent : string * json) : Prop :=
  fst sent = call_name (tc_function toolCall) /\
  parsed_arguments H toolCall = inr (snd sent).

(** A transcript tail made of one (assistant, tool) pair per call, in call
    order: the assistant message carries exactly that call, the tool message
    carries the call's id and the serialised content of its result. *)
Inductive paired {W} (H : Host W) :
  list ToolCall -> list CallToolResult -> list Message -> Prop :=
| paired_nil : paired H [] [] []
| paired_cons toolCall calls result results a t rest :
    msg_role a = assistant ->
    msg_tool_calls a = Some [toolCall] ->
    msg_role t = tool ->
    msg_tool_call_id t = Some (tc_id toolCall) ->
    msg_content t = Some (JSON_stringify H (result_content result)) ->
    paired H calls results rest ->
    paired H (toolCall :: calls) (result :: results) (a :: t :: rest).

(** The messages the loop has pushed after the calls [done]. *)
Definition pushed {W} (H : Host W) (done : list (ToolCall * CallToolResult)) : list Message :=
  flat_map (fun p => [call_message (fst p); result_message H (fst p) (snd p)]) done.

Definition and_then {A} (p : A) (o : exn + list A) : exn + list A :=
  match o with
  | inr l => inr (p :: l)
  | inl e => inl e
  end.

(** The runs of the loop over the tool calls, for the object [self]: the
    events the loop leaves and how it ends, with the calls completed or with
    the exception that left it. *)
Inductive dispatched {W} (H : Host W) (self : MCPClient) :
  list ToolCall -> list event -> exn + list (ToolCall * CallToolResult) -> Prop :=
| dispatched_all : dispatched H self [] [] (inr [])
| dispatched_malformed toolCall calls e :
    parsed_arguments H toolCall = inl e ->
    dispatched H self (toolCall :: calls) [] (inl e)
| dispatched_unconnected toolCall calls v :
    parsed_arguments H toolCall = inr v ->
    client self = None ->
    dispatched H self (toolCall :: calls) [] (inl unconnected)
| dispatched_rejected toolCall calls v e :
    parsed_arguments H toolCall = inr v ->
    client self <> None ->
    dispatched H self (toolCall :: calls)
      [CallTool (call_name (tc_function toolCall)) v (inl e)] (inl e)
| dispatched_next toolCall calls v result tr o :
    parsed_arguments H toolCall = inr v ->
    client self <> None ->
    dispatched H self calls tr o ->
    dispatched H self (toolCall :: calls)
      (CallTool (call_name (tc_function toolCall)) v (inr result)
       :: ConsoleLog [PStr "请求tool响应:"; PResult result] :: tr)
      (and_then (toolCall, result) o).

(** The events every run of [processQuery] starts with, when the first
    request is answered. *)
Definition opening (registered : list ChatCompletionTool) (query : string)
  (out : exn + ChatCompletion) : list event :=
  let params := requestParams registered (initial_messages query) in
  [ConsoleLog [PStr "请求参数:"; PRequest params]; ChatCreate params out].

(** What the [catch] clause of [processQuery] prints before it rethrows. *)
Definition query_failed (e : exn) : event :=
  ConsoleError [PStr "处理查询失败:"; PExn e].

(** The second round over the transcript [messages]: its events, and how
    the query ends on the outcome [out2] of the second request. *)
Definition second_round {W} (H : Host W) (messages : list Message)
  (out2 : exn + ChatCompletion) : list event * (exn + string) :=
  let params := finalParams (process_env H) messages in
  let sent := [ConsoleLog [PStr "请求last响应messages:"; PMessages messages];
               ChatCreate params out2] in
  match out2 with
  | inl e => (sent ++ [query_failed e], inl e)
  | inr finalResponse =>
      match choices finalResponse with
      | [] => (sent ++ [query_failed no_message], inl no_message)
      | c :: _ => (sent, inr (or_empty (content (message c))))
      end
  end.

(** The transport [connectToServer] builds for a script path. *)
Definition server_transport (serverPath : string) : StdioServerParameters :=
  {| command := if endsWith serverPath ".py" then "python" else "node";
     args := [serverPath] |}.

Definition starting_server (serverPath : string) : event :=
  ConsoleLog [PStr ("正在启动 " ++ command (server_transport serverPath)
                    ++ " 服务器: " ++ serverPath)].

(** ** A scripted host

    A host whose remote systems answer from a script, to run the methods on
    concrete inputs. *)

Record Script : Type := {
  chat_answers : list (exn + ChatCompletion);
  tool_answers : list (exn + CallToolResult);
  catalog : exn + ListToolsResult
}.

Definition hung_up : exn := Error "Connection closed".

Definition next_chat (w : Script) : (exn + ChatCompletion) * Script :=
  match chat_answers w with
  | a :: rest =>
      (a, {| chat_answers := rest; tool_answers := tool_answers w; catalog := catalog w |})
  | [] => (inl hung_up, w)
  end.

Definition next_tool (w : Script) : (exn + CallToolResult) * Script :=
  match tool_answers w with
  | a :: rest =>
      (a, {| chat_answers := chat_answers w; tool_answers := rest; catalog := catalog w |})
  | [] => (inl hung_up, w)
  end.

Definition quoted (s : string) : string :=
  (String (ascii_of_nat 34) s ++ String (ascii_of_nat 34) "")%string.

(** The argument strings of the examples: two JSON texts and a truncated
    one. *)
Definition forecast_arguments : string :=
  ("{" ++ quoted "latitude" ++ ": 37.7, " ++ quoted "longitude" ++ ": -122.4}")%string.

Definition alerts_arguments : string :=
  ("{" ++ quoted "state" ++ ": " ++ quoted "CA" ++ "}")%string.

Definition truncated_arguments : string :=
  ("{" ++ quoted "latitude" ++ ": 37.7,")%string.

(** [JSON.parse] on the strings of the examples. *)
Definition parse_examples (text : string) : exn + json :=
  if (text =? forecast_arguments)%string then
    inr (JObject [("latitude", JNumber 37.7%float); ("longitude", JNumber (-122.4)%float)])
  else if (text =? alerts_arguments)%string then
    inr (JObject [("state", JString "CA")])
  else inl (Exn "SyntaxError" "Unexpected end of JSON input").

Definition text_block (text : string) : json :=
  JArray [JObject [("type", JString "text"); ("text", JString text)]].

(** [JSON.stringify] on a content of one text block. *)
Definition stringify_examples (v : json) : string :=
  match v with
  | JArray [JObject [(k1, JString v1); (k2, JString v2)]] =>
      ("[{" ++ quoted k1 ++ ":" ++ quoted v1 ++ "," ++ quoted k2 ++ ":" ++ quoted v2 ++ "}]")%string
  | _ => "[]"
  end.

Definition scripted (env : ProcessEnv) : Host Script :=
  {| process_env := env;
     JSON_parse := parse_examples;
     JSON_stringify := stringify_examples;
     transport_connect := fun _ w => (inr tt, w);
     client_listTools := fun w => (catalog w, w);
     client_callTool := fun _ _ w => next_tool w;
     chat_completions_create := fun _ w => next_chat w |}.

Definition example_env : ProcessEnv :=
  {| OPENAI_API_KEY := Some "sk-example";
     OPENAI_API_BASE := None;
     OPENAI_MODEL := Some "gpt-4o" |}.

Definition example_host : Host Script := scripted example_env.

(** A backend catalog of two tools, each with a schema of its own. *)
Definition forecast_tool : MCPTool :=
  {| mcp_name := "get_forecast";
     mcp_description := Some "Get weather forecast for a location";
     mcp_inputSchema :=
       JObject [("type", JString "object");
                ("properties", JObject [("city", JObject [("type", JString "string")])]);
                ("required", JArray [JString "city"])] |}.

Definition air_quality_tool : MCPTool :=
  {| mcp_name := "get_air_quality";
     mcp_description := None;
     mcp_inputSchema := JObject [("type", JString "object")] |}.

Definition example_catalog : ListToolsResult :=
  {| lt_tools := [air_quality_tool; forecast_tool] |}.

Definition forecast_call : ToolCall :=
  {| tc_id := "call_A"; tc_type := "function";
     tc_function := {| call_name := "get_forecast"; call_arguments := forecast_arguments |} |}.

Definition alerts_call : ToolCall :=
  {| tc_id := "call_B"; tc_type := "function";
     tc_function := {| call_name := "get_alerts"; call_arguments := alerts_arguments |} |}.

Definition truncated_call : ToolCall :=
  {| tc_id := "call_M"; tc_type := "function";
     tc_function := {| call_name := "get_forecast"; call_arguments := truncated_arguments |} |}.

(** A response whose one choice has the given content and [tool_calls]. *)
Definition answers (text : option string) (calls : option (list ToolCall))
  : exn + ChatCompletion :=
  inr {| choices := [ {| message := {| content := text; tool_calls := calls |} |} ] |}.

Definition sunny : CallToolResult :=
  {| result_content := text_block "Sunny, 22C"; result_isError := None |}.
Definition no_alerts : CallToolResult :=
  {| result_content := text_block "No active alerts"; result_isError := None |}.

(** The object after the constructor, and after a connection to a backend
    with [example_catalog]. *)
Definition constructed : MCPClient :=
  {| openai := {| apiKey := "sk-example"; baseURL := default_baseURL |};
     client := None;
     tools := [] |}.

Definition connected_client : MCPClient :=
  {| openai := openai constructed;
     client := Some weather_client;
     tools := map register_tool (lt_tools example_catalog) |}.

Definition fresh (w : Script) : St Script :=
  {| world := w; trace := []; this := constructed |}.

Definition connected (w : Script) : St Script :=
  {| world := w; trace := []; this := connected_client |}.

(** The model asks for two calls, both succeed, and the second response
    answers while asking for one more call. *)
Definition two_calls : Script :=
  {| chat_answers := [answers None (Some [forecast_call; alerts_call]);
                      answers (Some "It is sunny, 22C, with no alerts.") (Some [alerts_call])];
     tool_answers := [inr sunny; inr no_alerts];
     catalog := inr example_catalog |}.

(** The first of two calls has truncated arguments. *)
Definition truncated_first : Script :=
  {| chat_answers := [answers None (Some [truncated_call; alerts_call]);
                      answers (Some "No alerts.") None];
     tool_answers := [inr no_alerts];
     catalog := inr example_catalog |}.

(** The backend rejects the first of two calls. *)
Definition rejected_first : Script :=
  {| chat_answers := [answers None (Some [forecast_call; alerts_call]);
                      answers (Some "No alerts.") None];
     tool_answers := [inl (Error "MCP error -32603: upstream timeout"); inr no_alerts];
     catalog := inr example_catalog |}.

(** The first response answers in text and has an empty [tool_calls]
    array. *)
Definition empty_array : Script :=
  {| chat_answers := [answers (Some "Hello! Ask me about the weather.") (Some []);
                      answers (Some "How can I help you today?") None];
     tool_answers := [];
     catalog := inr example_catalog |}.

Definition weather_query : string := "What is the weather at latitude 37.7, longitude -122.4?".

(** What [console.error] printed, in order. *)
Fixpoint console_errors (tr : list event) : list (list printed) :=
  match tr with
  | [] => []
  | ConsoleError line :: rest => line :: console_errors rest
  | _ :: rest => console_errors rest
  end.

(** The number of tool calls the first exchange of a trace asks for: those of
    the [tool_calls] array of its first choice, if it was answered with one. *)
Definition calls_requested (tr : list event) : nat :=
  match chat_exchanges tr with
  | (_, inr completion) :: _ =>
      match choices completion with
      | c :: _ =>
          match tool_calls (message c) with
          | Some calls => length calls
          | None => 0
          end
      | [] => 0
      end
  | _ => 0
  end.

(** ** The command line: [cleanup], [chatLoop] and the start of [main]

    The outer functions print, read lines and tear the connection down
    around the methods above.  Their log wraps the events of the methods and
    adds the calls made on the readline interface, on the transport and on
    the process. *)

(** What the outer functions use besides the [Host]: the string methods
    [trim] and [toLowerCase], and the transport of the SDK client, which
    [this.client.transport] may or may not hold. *)
Record Runtime (W : Type) : Type := {
  trim : string -> string;
  toLowerCase : string -> string;
  client_transport : W -> bool;
  transport_close : W -> (exn + unit) * W
}.

Inductive action : Type :=
| Did (ev : event)
| CreateInterface
| CloseInterface
| CloseTransport (out : exn + unit)
| Listen (emitter name : string).

(** How a piece of the program ends: it returns, it throws, or it ends the
    process with [process.exit]. *)
Inductive ending (A : Type) : Type :=
| Returned (a : A)
| Thrown (e : exn)
| Exited (code : nat).

Arguments Returned {A} a.
Arguments Thrown {A} e.
Arguments Exited {A} code.

Record Proc (W : Type) : Type := {
  pworld : W;
  pthis : MCPClient;
  log : list action
}.

Definition P (W A : Type) : Type := Proc W -> ending A * Proc W.

Definition pret {W A} (a : A) : P W A := fun p => (Returned a, p).

Definition pbind {W A B} (m : P W A) (k : A -> P W B) : P W B :=
  fun p =>
    match m p with
    | (Returned a, p') => k a p'
    | (Thrown e, p') => (Thrown e, p')
    | (Exited code, p') => (Exited code, p')
    end.

(** [process.exit(code)]: nothing runs after it, no [catch] clause either. *)
Definition process_exit {W A} (code : nat) : P W A := fun p => (Exited code, p).

Definition ptry {W A} (m : P W A) (h : exn -> P W A) : P W A :=
  fun p =>
    match m p with
    | (Thrown e, p') => h e p'
    | other => other
    end.

Declare Scope proc_scope.
Delimit Scope proc_scope with proc.
Notation "x <-- m ;;; k" := (pbind m (fun x => k))
  (at level 100, m at next level, right associativity) : proc_scope.
Notation "m ;;; k" := (pbind m (fun _ => k))
  (at level 100, right associativity) : proc_scope.
Open Scope proc_scope.

Definition say {W} (a : action) : P W unit :=
  fun p => (Returned tt, {| pworld := pworld p; pthis := pthis p; log := log p ++ [a] |}).

Definition print {W} (line : list printed) : P W unit := say (Did (ConsoleLog line)).
Definition print_error {W} (line : list printed) : P W unit := say (Did (ConsoleError line)).

(** A call of a method of the object: the method runs on the world and the
    object, and the events it leaves go to the log. *)
Definition method {W A} (m : M W A) : P W A :=
  fun p =>
    let (out, s') := m {| world := pworld p; trace := []; this := pthis p |} in
    (match out with inr a => Returned a | inl e => Thrown e end,
     {| pworld := world s'; pthis := this s'; log := log p ++ map Did (trace s') |}).

(** [cleanup] *)
Definition cleanup {W} (R : Runtime W) : P W unit :=
  fun p =>
    match client (pthis p) with
    | Some _ =>
        if client_transport R (pworld p) then
          let (out, w') := transport_close R (pworld p) in
          (match out with inr _ => Returned tt | inl e => Thrown e end,
           {| pworld := w'; pthis := pthis p; log := log p ++ [CloseTransport out] |})
        else (Returned tt, p)
    | None => (Returned tt, p)
    end.

Definition newline : string := String (ascii_of_nat 10) "".

(** The two lines printed when the client is ready. *)
Definition started_line : list printed := [PStr (newline ++ "MCP 客户端已启动!")].

Definition help_line : list printed :=
  [PStr ("输入你的问题，输入 " ++ quoted "quit" ++ " 退出。")].

(** The test of both loops: [query.toLowerCase() === 'quit']. *)
Definition is_quit {W} (R : Runtime W) (query : string) : bool :=
  (toLowerCase R query =? "quit")%string.

(** [for await (const line of readline)] of [chatLoop], over the lines the
    interface yields until its input ends. *)
Fixpoint read_lines {W} (H : Host W) (R : Runtime W) (lines : list string) : P W unit :=
  match lines with
  | [] => pret tt
  | line :: rest =>
      let query := trim R line in
      if is_quit R query then print [PStr "正在退出..."]
      else
        ptry
          (response <-- method (processQuery H query) ;;;
           print [PStr (newline ++ "回复:"); PStr response])
          (fun error => print_error [PStr "错误:"; PExn error]) ;;;
        print [PStr (newline ++ "输入问题:")] ;;;
        read_lines H R rest
  end.

Definition chatLoop {W} (H : Host W) (R : Runtime W) (lines : list string) : P W unit :=
  print started_line ;;;
  print help_line ;;;
  say CreateInterface ;;;
  read_lines H R lines ;;;
  say CloseInterface ;;;
  cleanup R.

Definition usage : string := "用法: npm run dev <服务器脚本路径>".

(** The [try] block of [main], up to the registration of the listeners. *)
Definition startup {W} (H : Host W) (serverPath : string) : P W unit :=
  ptry
    (method (connectToServer H serverPath) ;;;
     print started_line ;;;
     print help_line ;;;
     say CreateInterface ;;;
     say (Listen "rl" "line") ;;;
     say (Listen "rl" "close") ;;;
     say (Listen "process" "SIGINT"))
    (fun error =>
       print_error [PStr "错误:"; PExn error] ;;;
       process_exit 1).

(** How [main] leaves the process: the world, what was logged, the client
    object if it was constructed, and whether the process has exited. *)
Record Started (W : Type) : Type := {
  ended : ending unit;
  final_world : W;
  output : list action;
  object : option MCPClient
}.

(** [main().catch(...)]: the start of the program, on the command line
    [argv] ([process.argv]). *)
Definition main {W} (H : Host W) (argv : list string) (w : W) : Started W :=
  if (length argv <? 3)%nat then
    {| ended := Exited 1; final_world := w;
       output := [Did (ConsoleError [PStr usage])]; object := None |}
  else
    let serverPath := nth 2 argv "" in
    match new_MCPClient (process_env H) with
    | inl error =>
        {| ended := Exited 1; final_world := w;
           output := [Did (ConsoleError [PStr "致命错误:"; PExn error])]; object := None |}
    | inr built =>
        let (e, p) := startup H serverPath {| pworld := w; pthis := built; log := [] |} in
        match e with
        | Thrown error =>
            {| ended := Exited 1; final_world := pworld p;
               output := log p ++ [Did (ConsoleError [PStr "致命错误:"; PExn error])];
               object := Some (pthis p) |}
        | _ =>
            {| ended := e; final_world := pworld p; output := log p;
               object := Some (pthis p) |}
        end
    end.

(** The events of the methods in a log. *)
Fixpoint core_events (l : list action) : list event :=
  match l with
  | [] => []
  | Did ev :: rest => ev :: core_events rest
  | _ :: rest => core_events rest
  end.

Fixpoint listeners (l : list action) : list (string * string) :=
  match l with
  | [] => []
  | Listen emitter name :: rest => (emitter, name) :: listeners rest
  | _ :: rest => listeners rest
  end.

Fixpoint transport_closes (l : list action) : list (exn + unit) :=
  match l with
  | [] => []
  | CloseTransport out :: rest => out :: transport_closes rest
  | _ :: rest => transport_closes rest
  end.

Fixpoint interface_closes (l : list action) : nat :=
  match l with
  | [] => 0
  | CloseInterface :: rest => S (interface_closes rest)
  | _ :: rest => interface_closes rest
  end.

(** The first-round requests of a trace: those that declare tools. *)
Definition first_rounds (tr : list event) : list ChatRequest :=
  filter (fun r => match req_tools r with Some _ => true | None => false end)
    (chat_requests tr).

(** The lines [chatLoop] takes as queries: the trimmed lines before the
    first one that is [quit]. *)
Fixpoint queries_of {W} (R : Runtime W) (lines : list string) : list string :=
  match lines with
  | [] => []
  | line :: rest =>
      if is_quit R (trim R line) then [] else trim R line :: queries_of R rest
  end.

(** The string methods on ASCII text, and a transport that closes. *)
Definition is_space (c : ascii) : bool :=
  let n := nat_of_ascii c in
  (n =? 32)%nat || ((9 <=? n)%nat && (n <=? 13)%nat).

Fixpoint trim_start (s : string) : string :=
  match s with
  | String c rest => if is_space c then trim_start rest else s
  | EmptyString => EmptyString
  end.

Fixpoint trim_end (s : string) : string :=
  match s with
  | String c rest =>
      match trim_end rest with
      | EmptyString => if is_space c then EmptyString else String c EmptyString
      | kept => String c kept
      end
  | EmptyString => EmptyString
  end.

Definition lower (c : ascii) : ascii :=
  let n := nat_of_ascii c in
  if (65 <=? n)%nat && (n <=? 90)%nat then ascii_of_nat (n + 32) else c.

Fixpoint lower_all (s : string) : string :=
  match s with
  | String c rest => String (lower c) (lower_all rest)
  | EmptyString => EmptyString
  end.

Definition ascii_runtime : Runtime Script :=
  {| trim := fun s => trim_end (trim_start s);
     toLowerCase := lower_all;
     client_transport := fun _ => true;
     transport_close := fun w => (inr tt, w) |}.

(** More scripts: the chat endpoint rejects the first request; the model
    asks for a tool the backend did not list; the backend rejects
    [listTools]. *)
Definition rate_limited : Script :=
  {| chat_answers := [inl (Error "429 Too Many Requests")];
     tool_answers := [];
     catalog := inr example_catalog |}.

Definition asks_unlisted_tool : Script :=
  {| chat_answers := [answers None (Some [alerts_call]); answers (Some "No alerts.") None];
     tool_answers := [inr no_alerts];
     catalog := inr example_catalog |}.

Definition no_catalog : Script :=
  {| chat_answers := [];
     tool_answers := [];
     catalog := inl (Error "MCP error -32601: Method not found") |}.

Definition at_prompt (w : Script) : Proc Script :=
  {| pworld := w; pthis := connected_client; log := [] |}.

(** The trace is only ever written.  [appends m] says that [m] does not
    depend on the trace it starts from: it adds its own events to it. *)
Definition with_trace {W} (s : St W) (t : list event) : St W :=
  {| world := world s; trace := t; this := this s |}.

Definition appends {W A} (m : M W A) : Prop :=
  forall s t,
    m (with_trace s t)
      = (fst (m (with_trace s [])),
         with_trace (snd (m (with_trace s []))) (t ++ trace (snd (m (with_trace s []))))).

(** ** The backend's answers before the SDK client

    What a backend puts on the wire for one tool of a [tools/list] answer:
    any property can be missing there. *)
Record WireTool : Type := {
  wire_name : option string;
  wire_description : option string;
  wire_inputSchema : json
}.

Definition invalid_answer : exn := Exn "ZodError" "tools: name: Required".

(** The check the SDK client makes on a [tools/list] answer before
    [listTools] resolves: one descriptor without a [name] makes the whole
    answer invalid, and [listTools] rejects. *)
Fixpoint checked_tools (answer : list WireTool) : exn + list MCPTool :=
  match answer with
  | [] => inr []
  | t :: rest =>
      match wire_name t, checked_tools rest with
      | Some name, inr ts =>
          inr ({| mcp_name := name;
                  mcp_description := wire_description t;
                  mcp_inputSchema := wire_inputSchema t |} :: ts)
      | None, _ => inl invalid_answer
      | _, inl e => inl e
      end
  end.

Definition sdk_listTools (answer : list WireTool) : exn + ListToolsResult :=
  match checked_tools answer with
  | inr ts => inr {| lt_tools := ts |}
  | inl e => inl e
  end.

Definition on_the_wire (t : MCPTool) : WireTool :=
  {| wire_name := Some (mcp_name t);
     wire_description := mcp_description t;
     wire_inputSchema := mcp_inputSchema t |}.

(** A backend whose answer has a descriptor without a name before a well
    formed one. *)
Definition nameless_answer : list WireTool :=
  [ {| wire_name := None;
       wire_description := Some "a descriptor without a name";
       wire_inputSchema := JObject [("type", JString "object")] |};
    on_the_wire forecast_tool ].

Definition nameless_offered : Script :=
  {| chat_answers := [];
     tool_answers := [];
     catalog := sdk_listTools nameless_answer |}.

(** The backend reports the failure of the first of two calls in its
    result. *)
Definition upstream_failed : CallToolResult :=
  {| result_content := text_block "Error: upstream timeout";
     result_isError := Some true |}.

Definition reported_failure : Script :=
  {| chat_answers := [answers None (Some [forecast_call; alerts_call]);
                      answers (Some "The forecast failed; there are no alerts.") None];
     tool_answers := [inr upstream_failed; inr no_alerts];
     catalog := inr example_catalog |}.

(** * Properties *)

(** ** The monad *)

(** Unfold the operations of the monad and read the fields of the states
    they build. *)
Ltac run_monad :=
  unfold try_catch, bind, ret, throw, get_this, set_this, console_log, console_error,
    emit, remote;
  cbn [world trace this].

Section Runs.

Context {W : Type} (H : Host W).

Lemma for_of_dispatch calls :
  forall results messages s out s',
    for_of calls (dispatch H) (results, messages) s = (out, s') ->
    exists tr o,
      dispatched H (this s) calls tr o /\
      trace s' = trace s ++ tr /\
      this s' = this s /\
      out = match o with
            | inr done => inr (results ++ map snd done, messages ++ pushed H done)
            | inl e => inl e
            end.
Proof.
  induction calls as [|toolCall calls IH]; intros results messages s out s' Hrun.
  - cbn in Hrun. inversion Hrun; subst.
    exists [], (inr []). cbn. rewrite !app_nil_r. repeat split. constructor.
  - cbn [for_of] in Hrun. unfold bind at 1 in Hrun.
    unfold dispatch in Hrun.
    unfold bind at 1 in Hrun.
    destruct (JSON_parse H (call_arguments (tc_function toolCall))) as [e|v] eqn:Hparse.
    + cbn in Hrun. inversion Hrun; subst.
      exists [], (inl e). rewrite app_nil_r. repeat split.
      now apply dispatched_malformed.
    + cbn [lift_result ret] in Hrun.
      unfold callTool, bind, get_this in Hrun.
      destruct (client (this s)) as [info|] eqn:Hclient.
      * assert (Hconnected : client (this s) <> None) by congruence.
        unfold remote in Hrun.
        destruct (client_callTool H (call_name (tc_function toolCall)) v (world s))
          as [[e|result] w'] eqn:Hcall.
        -- inversion Hrun; subst. cbn.
           exists [CallTool (call_name (tc_function toolCall)) v (inl e)], (inl e).
           repeat split. now apply dispatched_rejected.
        -- cbn in Hrun.
           apply IH in Hrun. destruct Hrun as (tr & o & Hd & Htr & Hthis & Hout).
           cbn in Hd, Htr, Hthis.
           exists (CallTool (call_name (tc_function toolCall)) v (inr result)
                   :: ConsoleLog [PStr "请求tool响应:"; PResult result] :: tr),
                  (and_then (toolCall, result) o).
           split; [now apply dispatched_next|].
           split; [rewrite Htr, <- !app_assoc; reflexivity|].
           split; [assumption|].
           destruct o as [e|done]; cbn; [assumption|].
           rewrite Hout. unfold pushed. cbn. rewrite <- !app_assoc. reflexivity.
      * unfold throw in Hrun. inversion Hrun; subst.
        exists [], (inl unconnected). rewrite app_nil_r. repeat split.
        now apply dispatched_unconnected with (v := v).
Qed.

End Runs.

Section Queries.

Context {W : Type} (H : Host W).

(** A run of [processQuery] whose first response has a [tool_calls] array:
    the loop runs over the array; an exception leaving it ends the query at
    the [catch] clause, otherwise the second round follows. *)
Lemma processQuery_tool_calls query s completion w1 c cs calls out s' :
  chat_completions_create H (requestParams (tools (this s)) (initial_messages query)) (world s)
    = (inr completion, w1) ->
  choices completion = c :: cs ->
  tool_calls (message c) = Some calls ->
  processQuery H query s = (out, s') ->
  exists tr o,
    dispatched H (this s) calls tr o /\
    this s' = this s /\
    match o with
    | inl e =>
        out = inl e /\
        trace s' = trace s ++ opening (tools (this s)) query (inr completion)
                     ++ tr ++ [query_failed e]
    | inr done =>
        exists out2,
          let round := second_round H (initial_messages query ++ pushed H done) out2 in
          out = snd round /\
          trace s' = trace s ++ opening (tools (this s)) query (inr completion)
                       ++ tr ++ fst round
    end.
Proof.
  intros Hfirst Hchoices Hcalls Hrun.
  unfold processQuery, try_catch in Hrun.
  unfold bind at 1 in Hrun. unfold get_this at 1 in Hrun.
  unfold bind at 1 in Hrun. unfold console_log at 1, emit at 1 in Hrun.
  unfold bind at 1 in Hrun. unfold remote at 1 in Hrun. cbn [world trace this] in Hrun.
  rewrite Hfirst in Hrun.
  unfold bind at 1 in Hrun. unfold first_message at 1 in Hrun.
  rewrite Hchoices in Hrun. cbn [ret] in Hrun. rewrite Hcalls in Hrun.
  unfold bind at 1 in Hrun.
  match type of Hrun with
  | context [for_of calls (dispatch H) ?v ?st] =>
      destruct (for_of calls (dispatch H) v st) as [o1 s1] eqn:Hloop
  end.
  apply for_of_dispatch in Hloop.
  destruct Hloop as (tr & o & Hd & Htr & Hthis & Ho1).
  cbn [trace this] in Htr, Hthis.
  exists tr, o. split; [assumption|].
  destruct o as [e|done]; subst o1.
  - cbn in Hrun. inversion Hrun; subst. cbn.
    split; [assumption|]. split; [reflexivity|].
    rewrite Htr. unfold opening, query_failed. rewrite <- !app_assoc. reflexivity.
  - cbn [snd] in Hrun.
    unfold bind at 1 in Hrun. unfold console_log at 1, emit at 1 in Hrun.
    unfold bind at 1 in Hrun. unfold remote at 1 in Hrun. cbn [world trace this] in Hrun.
    match type of Hrun with
    | context [chat_completions_create H ?r ?w] =>
        destruct (chat_completions_create H r w) as [out2 w2] eqn:Hsecond
    end.
    destruct out2 as [e|finalResponse].
    + cbn in Hrun. inversion Hrun; subst. cbn.
      split; [assumption|]. exists (inl e). cbn.
      split; [reflexivity|].
      rewrite Htr. unfold opening, query_failed. rewrite <- !app_assoc. reflexivity.
    + unfold bind at 1 in Hrun. unfold first_message in Hrun.
      split; [|exists (inr finalResponse); unfold second_round];
        destruct (choices finalResponse) as [|c2 cs2];
        cbn in Hrun; inversion Hrun; subst; cbn; try assumption;
        (split; [reflexivity|]);
        rewrite Htr; unfold opening, query_failed; rewrite <- !app_assoc; reflexivity.
Qed.

(** A run whose first response has no [tool_calls] property (or a [null]
    one): one request, and the answer is the content of that response. *)
Lemma processQuery_without_tool_calls query s completion w1 c cs :
  chat_completions_create H (requestParams (tools (this s)) (initial_messages query)) (world s)
    = (inr completion, w1) ->
  choices completion = c :: cs ->
  tool_calls (message c) = None ->
  processQuery H query s =
    (inr (or_empty (content (message c))),
     {| world := w1;
        trace := trace s ++ opening (tools (this s)) query (inr completion);
        this := this s |}).
Proof.
  intros Hfirst Hchoices Hcalls.
  unfold processQuery. run_monad. rewrite Hfirst.
  unfold first_message. rewrite Hchoices. cbn [ret]. rewrite Hcalls.
  cbn. unfold opening. rewrite <- app_assoc. reflexivity.
Qed.

End Queries.

(** ** Traces *)

Lemma chat_exchanges_app tr1 tr2 :
  chat_exchanges (tr1 ++ tr2) = chat_exchanges tr1 ++ chat_exchanges tr2.
Proof.
  induction tr1 as [|ev tr1 IH]; [reflexivity|].
  destruct ev; cbn; rewrite ?IH; reflexivity.
Qed.

Lemma chat_requests_app tr1 tr2 :
  chat_requests (tr1 ++ tr2) = chat_requests tr1 ++ chat_requests tr2.
Proof. unfold chat_requests. now rewrite chat_exchanges_app, map_app. Qed.

Lemma backend_calls_app tr1 tr2 :
  backend_calls (tr1 ++ tr2) = backend_calls tr1 ++ backend_calls tr2.
Proof.
  induction tr1 as [|ev tr1 IH]; [reflexivity|].
  destruct ev; cbn; rewrite ?IH; reflexivity.
Qed.

Lemma backend_results_app tr1 tr2 :
  backend_results (tr1 ++ tr2) = backend_results tr1 ++ backend_results tr2.
Proof.
  induction tr1 as [|ev tr1 IH]; [reflexivity|].
  destruct ev as [| | | | | |? ? [?|?]]; cbn; rewrite ?IH; reflexivity.
Qed.

Lemma backend_failures_app tr1 tr2 :
  backend_failures (tr1 ++ tr2) = backend_failures tr1 ++ backend_failures tr2.
Proof.
  induction tr1 as [|ev tr1 IH]; [reflexivity|].
  destruct ev as [| | | | | |? ? [?|?]]; cbn; rewrite ?IH; reflexivity.
Qed.

Lemma backend_failures_In tr :
  forall e, In e (backend_failures tr) <-> exists name v, In (CallTool name v (inl e)) tr.
Proof.
  induction tr as [|ev tr IH]; intros e; cbn [backend_failures In].
  - split; [contradiction|]. intros (? & ? & []).
  - destruct ev as [| | | | | |name v [e'|r]]; cbn [In]; rewrite ?IH;
      try (split;
           [intros (n & a & Hin); exists n, a; now right
           |intros (n & a & [Heq|Hin]); [discriminate|now exists n, a]]).
    split.
    + intros [Heq|(n & a & Hin)]; [subst; exists name, v; now left|exists n, a; now right].
    + intros (n & a & [Heq|Hin]); [inversion Heq; now left|right; now exists n, a].
Qed.

(** ** The loop over the tool calls *)

Section Dispatch.

Context {W : Type} (H : Host W) (self : MCPClient).

Lemma dispatched_no_chat calls tr o :
  dispatched H self calls tr o -> chat_exchanges tr = [].
Proof. induction 1; cbn; auto. Qed.

(** The backend is called for the calls in their order, each with the parse
    of its own arguments, up to the call at which the loop stops. *)
Lemma dispatched_in_order calls tr o :
  dispatched H self calls tr o ->
  Forall2 (sent_as H) (firstn (length (backend_calls tr)) calls) (backend_calls tr).
Proof.
  induction 1; cbn; try constructor; auto; try (now split); constructor.
Qed.

Lemma dispatched_bound calls tr o :
  dispatched H self calls tr o -> length (backend_calls tr) <= length calls.
Proof. induction 1; cbn; lia. Qed.

Lemma dispatched_completed calls tr o :
  dispatched H self calls tr o ->
  forall done, o = inr done ->
    map fst done = calls /\
    backend_results tr = map snd done /\
    backend_failures tr = [] /\
    length (backend_calls tr) = length calls.
Proof.
  induction 1 as [| | | |toolCall calls v result tr o Hparse Hsome Hd IH];
    intros done Ho; try discriminate.
  - inversion Ho; subst. now cbn.
  - destruct o as [e|done']; [discriminate|]. cbn in Ho. inversion Ho; subst.
    destruct (IH done' eq_refl) as (Hcalls & Hres & Hfail & Hlen).
    cbn. rewrite Hcalls, Hres, Hfail, Hlen. auto.
Qed.

Lemma pushed_paired (done : list (ToolCall * CallToolResult)) :
  paired H (map fst done) (map snd done) (pushed H done).
Proof.
  induction done as [|[toolCall result] done IH]; cbn; [constructor|].
  now apply paired_cons.
Qed.

Lemma pushed_length (done : list (ToolCall * CallToolResult)) :
  length (pushed H done) = 2 * length done.
Proof.
  unfold pushed. induction done as [|p done IH]; cbn; [reflexivity|].
  rewrite IH. lia.
Qed.

(** The loop completes when the object is connected, every call's
    arguments parse and the backend rejects no invocation. *)
Lemma dispatched_completes calls tr o :
  dispatched H self calls tr o ->
  client self <> None ->
  Forall (fun toolCall => exists v, parsed_arguments H toolCall = inr v) calls ->
  backend_failures tr = [] ->
  exists done, o = inr done.
Proof.
  induction 1 as [|toolCall calls e Hparse|toolCall calls v Hparse Hnone| |
                  toolCall calls v result tr o Hparse Hsome Hd IH];
    intros Hconnected Hparsed Hnofailure.
  - now exists [].
  - inversion Hparsed as [|? ? [v Hv] _]; subst. congruence.
  - contradiction.
  - discriminate.
  - inversion Hparsed as [|? ? _ Hrest]; subst.
    destruct (IH Hconnected Hrest Hnofailure) as [done ->].
    now eexists.
Qed.

(** A rejected backend invocation is the last event of the loop, and its
    exception is the one that leaves the loop. *)
Lemma dispatched_rejection calls tr o :
  dispatched H self calls tr o ->
  forall name v e, In (CallTool name v (inl e)) tr ->
    o = inl e /\
    backend_failures tr = [e] /\
    exists before, tr = before ++ [CallTool name v (inl e)].
Proof.
  induction 1 as [| | | |toolCall calls v result tr o Hparse Hsome Hd IH];
    intros name a e' Hin; cbn in Hin; try contradiction.
  - destruct Hin as [Heq|[]]. inversion Heq; subst.
    repeat split. now exists [].
  - destruct Hin as [Heq|[Heq|Hin]]; try discriminate.
    destruct (IH _ _ _ Hin) as (Ho & Hfail & before & Hbefore). subst o.
    repeat split; [exact Hfail|].
    eexists (_ :: _ :: before). now rewrite Hbefore.
Qed.

(** A call whose arguments do not parse stops the loop, at that call or at
    an earlier one: the calls after it never reach the backend. *)
Lemma dispatched_malformed_stops earlier :
  forall toolCall later tr o e,
    dispatched H self (earlier ++ toolCall :: later) tr o ->
    parsed_arguments H toolCall = inl e ->
    (exists e', o = inl e') /\
    length (backend_calls tr) <= length earlier.
Proof.
  induction earlier as [|first earlier IH]; intros toolCall later tr o e Hd Hparse;
    cbn [app] in Hd; inversion Hd; subst; cbn; try congruence;
    try (split; [eauto|lia]).
  match goal with
  | Hrest : dispatched H self (earlier ++ _) _ _ |- _ =>
      destruct (IH _ _ _ _ _ Hrest Hparse) as [[e' He'] Hlen]
  end.
  subst. split; [now exists e'|lia].
Qed.

(** When every earlier call went through, the exception is the
    [SyntaxError] of the malformed call itself. *)
Lemma dispatched_malformed_first earlier :
  forall toolCall later tr o e,
    dispatched H self (earlier ++ toolCall :: later) tr o ->
    parsed_arguments H toolCall = inl e ->
    length (backend_results tr) = length earlier ->
    o = inl e.
Proof.
  induction earlier as [|first earlier IH]; intros toolCall later tr o e Hd Hparse Hlen;
    cbn [app] in Hd; inversion Hd; subst; cbn in Hlen; try congruence; try discriminate.
  match goal with
  | Hrest : dispatched H self (earlier ++ _) _ _ |- _ =>
      rewrite (IH _ _ _ _ _ Hrest Hparse); [reflexivity|lia]
  end.
Qed.

End Dispatch.

(** ** Queries that dispatch tool calls *)

Lemma Forall2_at {A B} (R : A -> B -> Prop) l1 l2 :
  Forall2 R l1 l2 ->
  forall i a b, nth_error l1 i = Some a -> nth_error l2 i = Some b -> R a b.
Proof.
  induction 1 as [|x y l1 l2 Hxy Hrest IH]; intros [|i] a b Ha Hb; cbn in *;
    try discriminate.
  - now inversion Ha; inversion Hb; subst.
  - eauto.
Qed.

Section ToolCalls.

Context {W : Type} (H : Host W).

(** The trace of a query with a [tool_calls] array, read through the
    projections: the loop's invocations are all the backend invocations, and
    there is a second request exactly when the loop completed. *)
Lemma processQuery_tool_calls_trace query s completion w1 c cs calls :
  chat_completions_create H (requestParams (tools (this s)) (initial_messages query)) (world s)
    = (inr completion, w1) ->
  choices completion = c :: cs ->
  tool_calls (message c) = Some calls ->
  exists tr loop o,
    trace (snd (processQuery H query s)) = trace s ++ tr /\
    dispatched H (this s) calls loop o /\
    backend_calls tr = backend_calls loop /\
    backend_results tr = backend_results loop /\
    backend_failures tr = backend_failures loop /\
    match o with
    | inl e =>
        fst (processQuery H query s) = inl e /\
        chat_exchanges tr
          = [(requestParams (tools (this s)) (initial_messages query), inr completion)] /\
        tr = opening (tools (this s)) query (inr completion) ++ loop ++ [query_failed e]
    | inr done =>
        exists out2,
          let round := second_round H (initial_messages query ++ pushed H done) out2 in
          fst (processQuery H query s) = snd round /\
          chat_exchanges tr
            = [(requestParams (tools (this s)) (initial_messages query), inr completion);
               (finalParams (process_env H) (initial_messages query ++ pushed H done), out2)] /\
          tr = opening (tools (this s)) query (inr completion) ++ loop ++ fst round
    end.
Proof.
  intros Hfirst Hchoices Hcalls.
  destruct (processQuery H query s) as [out s'] eqn:Hrun.
  eapply processQuery_tool_calls in Hrun; [|eassumption..].
  destruct Hrun as (loop & o & Hd & _ & Hshape).
  pose proof (dispatched_no_chat Hd) as Hnochat.
  destruct o as [e|done].
  - destruct Hshape as [Hout Htr].
    exists (opening (tools (this s)) query (inr completion) ++ loop ++ [query_failed e]),
      loop, (inl e).
    cbn [fst snd]. split; [exact Htr|]. split; [exact Hd|].
    rewrite !backend_calls_app, !backend_results_app, !backend_failures_app,
      !chat_exchanges_app, Hnochat.
    cbn. rewrite !app_nil_r. repeat split; assumption.
  - destruct Hshape as (out2 & Hout & Htr).
    exists (opening (tools (this s)) query (inr completion) ++ loop
            ++ fst (second_round H (initial_messages query ++ pushed H done) out2)),
      loop, (inr done).
    cbn [fst snd]. split; [exact Htr|]. split; [exact Hd|].
    rewrite !backend_calls_app, !backend_results_app, !backend_failures_app,
      !chat_exchanges_app, Hnochat.
    assert (Hround :
      let round := second_round H (initial_messages query ++ pushed H done) out2 in
      backend_calls (fst round) = [] /\ backend_results (fst round) = [] /\
      backend_failures (fst round) = [] /\
      chat_exchanges (fst round)
        = [(finalParams (process_env H) (initial_messages query ++ pushed H done), out2)]).
    { unfold second_round. destruct out2 as [e|final]; [now cbn|].
      destruct (choices final); now cbn. }
    cbn zeta in Hround. destruct Hround as (-> & -> & -> & ->).
    cbn. rewrite !app_nil_r. repeat split. exists out2. cbn zeta.
    repeat split. exact Hout.
Qed.

End ToolCalls.

Lemma backend_results_In tr :
  forall name v result, In (CallTool name v (inr result)) tr -> In result (backend_results tr).
Proof.
  induction tr as [|ev tr IH]; intros name v result Hin; [contradiction|].
  destruct Hin as [->|Hin]; [now left|].
  destruct ev as [| | | | | |? ? [?|?]]; cbn; eauto.
Qed.

Lemma backend_results_called tr :
  forall result, In result (backend_results tr) ->
    exists name v, In (CallTool name v (inr result)) tr.
Proof.
  induction tr as [|ev tr IH]; intros result Hin; [contradiction|].
  destruct ev as [| | | | | |name v [e|r]]; cbn in Hin;
    try (destruct (IH _ Hin) as (n & a & Hin'); exists n, a; now right).
  destruct Hin as [->|Hin]; [exists name, v; now left|].
  destruct (IH _ Hin) as (n & a & Hin'). exists n, a. now right.
Qed.

Lemma dispatched_connected {W} (H : Host W) self calls tr o :
  dispatched H self calls tr o ->
  forall name v out, In (CallTool name v out) tr -> client self <> None.
Proof.
  induction 1; intros name a out Hin; cbn in Hin; try contradiction; try assumption.
Qed.

Lemma pushed_In {W} (H : Host W) (done : list (ToolCall * CallToolResult)) toolCall result :
  In (toolCall, result) done -> In (result_message H toolCall result) (pushed H done).
Proof.
  unfold pushed. intros Hin. apply in_flat_map. exists (toolCall, result).
  split; [exact Hin|]. right. now left.
Qed.

Section OrchestrationClaims.

Context {W : Type} (H : Host W).

(** C1.  When the first response carries N >= 1 tool calls, the backend is
    invoked one call after the other in the order of the array (each
    invocation for its own call, up to the point the loop reaches), and the
    transcript of the second request is the system and user messages followed
    by exactly N pairs, in call order: an assistant message carrying exactly
    that one call, then the tool message with the call's id and the
    serialised content of that call's result.  An answer is returned only
    after such a second request, and the second request is made whenever
    the object is connected, every call's arguments parse and the backend
    rejects no invocation. *)
Theorem transcript_pairing query s completion w1 c cs calls :
  chat_completions_create H (requestParams (tools (this s)) (initial_messages query)) (world s)
    = (inr completion, w1) ->
  choices completion = c :: cs ->
  tool_calls (message c) = Some calls ->
  1 <= length calls ->
  exists tr,
    trace (snd (processQuery H query s)) = trace s ++ tr /\
    Forall2 (sent_as H) (firstn (length (backend_calls tr)) calls) (backend_calls tr) /\
    (forall req2, nth_error (chat_requests tr) 1 = Some req2 ->
       exists pairs,
         req_messages req2 = initial_messages query ++ pairs /\
         paired H calls (backend_results tr) pairs /\
         length pairs = 2 * length calls /\
         Forall2 (sent_as H) calls (backend_calls tr)) /\
    (forall answer, fst (processQuery H query s) = inr answer ->
       exists req2,
         chat_requests tr = [requestParams (tools (this s)) (initial_messages query); req2]) /\
    (client (this s) <> None ->
     Forall (fun toolCall =>
               exists v, JSON_parse H (call_arguments (tc_function toolCall)) = inr v) calls ->
     backend_failures tr = [] ->
     exists req2, nth_error (chat_requests tr) 1 = Some req2).
Proof.
  intros Hfirst Hchoices Hcalls _.
  destruct (processQuery_tool_calls_trace H query s Hfirst Hchoices Hcalls)
    as (tr & loop & o & Htr & Hd & Hbc & Hbr & Hbf & Hshape).
  exists tr. split; [exact Htr|].
  split; [rewrite Hbc; eapply dispatched_in_order; eassumption|].
  destruct o as [e|done].
  - destruct Hshape as (Hout & Hchat & _). unfold chat_requests. rewrite Hchat.
    split; [|split].
    + intros req2 Hreq2. discriminate.
    + intros answer Hanswer. congruence.
    + intros Hconnected Hparsed Hnofailure. rewrite Hbf in Hnofailure.
      destruct (dispatched_completes Hd Hconnected Hparsed Hnofailure) as [done Hdone].
      discriminate.
  - destruct Hshape as (out2 & Hout & Hchat & _). unfold chat_requests. rewrite Hchat.
    destruct (dispatched_completed Hd eq_refl) as (Hfst & Hsnd & _ & Hlen).
    split; [|split].
    + intros req2 Hreq2. cbn in Hreq2. inversion Hreq2; subst req2. cbn [req_messages finalParams].
      exists (pushed H done). split; [reflexivity|].
      split; [rewrite Hbr, Hsnd, <- Hfst; apply pushed_paired|].
      split; [rewrite pushed_length, <- Hfst, length_map; reflexivity|].
      pose proof (dispatched_in_order Hd) as Horder.
      rewrite Hlen, firstn_all in Horder. now rewrite Hbc.
    + intros answer _. now eexists.
    + intros _ _ _. now eexists.
Qed.

(** C5.  After a first response with at least one tool call, at most two
    chat requests are made.  The second one carries no tool declarations,
    and the backend invocations of the whole query are those of the calls of
    the first response: nothing is invoked, and nothing requested, after the
    second request.  When the second request is answered with a message, it
    is the last thing the query does, and the query returns that message's
    text, the empty string for [null], whatever [tool_calls] that message
    has. *)
Theorem second_round_is_final query s completion w1 c cs calls :
  chat_completions_create H (requestParams (tools (this s)) (initial_messages query)) (world s)
    = (inr completion, w1) ->
  choices completion = c :: cs ->
  tool_calls (message c) = Some calls ->
  1 <= length calls ->
  exists tr,
    trace (snd (processQuery H query s)) = trace s ++ tr /\
    length (chat_exchanges tr) <= 2 /\
    (forall req2 out2, nth_error (chat_exchanges tr) 1 = Some (req2, out2) ->
       req_tools req2 = None /\
       Forall2 (sent_as H) calls (backend_calls tr) /\
       (exists before after,
          tr = before ++ ChatCreate req2 out2 :: after /\
          backend_calls after = [] /\
          chat_exchanges after = []) /\
       forall final text further cs2,
         out2 = inr final ->
         choices final = {| message := {| content := text; tool_calls := further |} |} :: cs2 ->
         fst (processQuery H query s)
           = inr (match text with Some answer => answer | None => "" end) /\
         exists before, tr = before ++ [ChatCreate req2 out2]).
Proof.
  intros Hfirst Hchoices Hcalls _.
  destruct (processQuery_tool_calls_trace H query s Hfirst Hchoices Hcalls)
    as (tr & loop & o & Htr & Hd & Hbc & _ & _ & Hshape).
  exists tr. split; [exact Htr|].
  destruct o as [e|done].
  - destruct Hshape as (_ & Hchat & _). rewrite Hchat. cbn. split; [lia|].
    intros req2 out2 Hnth. discriminate.
  - destruct Hshape as (out2 & Hout & Hchat & Heq). rewrite Hchat. cbn [length nth_error].
    split; [lia|].
    intros req2 out2' Hnth. inversion Hnth; subst req2 out2'.
    split; [reflexivity|].
    split.
    { destruct (dispatched_completed Hd eq_refl) as (_ & _ & _ & Hlen).
      pose proof (dispatched_in_order Hd) as Horder.
      rewrite Hlen, firstn_all in Horder. now rewrite Hbc. }
    split.
    { exists (opening (tools (this s)) query (inr completion) ++ loop
              ++ [ConsoleLog [PStr "请求last响应messages:";
                              PMessages (initial_messages query ++ pushed H done)]]).
      rewrite Heq. unfold second_round.
      destruct out2 as [e|final]; [|destruct (choices final)]; cbn [fst];
        eexists; rewrite <- !app_assoc; cbn [app]; repeat split. }
    intros final text further cs2 -> Hfinal.
    rewrite Hout, Heq. unfold second_round. rewrite Hfinal. cbn [fst snd content message].
    split; [now destruct text|].
    exists (opening (tools (this s)) query (inr completion) ++ loop
            ++ [ConsoleLog [PStr "请求last响应messages:";
                            PMessages (initial_messages query ++ pushed H done)]]).
    rewrite <- !app_assoc. reflexivity.
Qed.

(** A rejected backend invocation aborts the query: the rejection is the
    last thing the query does before its [catch] clause; no second chat
    request is made, and the rejection's exception is rethrown to the caller
    in place of an answer. *)
Lemma backend_failure_aborts query s completion w1 c cs calls :
  chat_completions_create H (requestParams (tools (this s)) (initial_messages query)) (world s)
    = (inr completion, w1) ->
  choices completion = c :: cs ->
  tool_calls (message c) = Some calls ->
  exists tr,
    trace (snd (processQuery H query s)) = trace s ++ tr /\
    forall name v e, In (CallTool name v (inl e)) tr ->
      fst (processQuery H query s) = inl e /\
      chat_requests tr = [requestParams (tools (this s)) (initial_messages query)] /\
      backend_failures tr = [e] /\
      exists before, tr = before ++ [CallTool name v (inl e); query_failed e].
Proof.
  intros Hfirst Hchoices Hcalls.
  destruct (processQuery_tool_calls_trace H query s Hfirst Hchoices Hcalls)
    as (tr & loop & o & Htr & Hd & _ & _ & Hbf & Hshape).
  exists tr. split; [exact Htr|].
  intros name v e Hin.
  assert (Hloop : In (CallTool name v (inl e)) loop).
  { destruct o as [e0|done].
    - destruct Hshape as (_ & _ & ->).
      apply in_app_or in Hin. destruct Hin as [[Hin|[Hin|[]]]|Hin]; try discriminate.
      apply in_app_or in Hin. destruct Hin as [Hin|[Hin|[]]]; [exact Hin|discriminate].
    - destruct Hshape as (out2 & _ & _ & ->).
      apply in_app_or in Hin. destruct Hin as [[Hin|[Hin|[]]]|Hin]; try discriminate.
      apply in_app_or in Hin. destruct Hin as [Hin|Hin]; [exact Hin|].
      unfold second_round in Hin.
      destruct out2 as [e2|final]; [|destruct (choices final)];
        cbn in Hin; repeat (destruct Hin as [Hin|Hin]; try discriminate); contradiction. }
  destruct (dispatched_rejection Hd _ _ _ Hloop) as (-> & Hone & before & Hbefore).
  destruct Hshape as (Hout & Hchat & Heq).
  split; [exact Hout|].
  split; [unfold chat_requests; now rewrite Hchat|].
  split; [now rewrite Hbf|].
  exists (opening (tools (this s)) query (inr completion) ++ before).
  rewrite Heq, Hbefore, <- !app_assoc. reflexivity.
Qed.

(** C4, as the program has it.  How a backend failure is handled depends on
    how it arrives.  A rejected invocation aborts the query: it is the last
    thing done before the [catch] clause, no second chat request is made and
    its exception is rethrown in place of an answer.  A failure the backend
    reports in a result ([isError]) is a result like any other: when no
    invocation is rejected and every call's arguments parse, the second
    request is made, and its transcript has the pair of every call, the tool
    message of the failed call carrying the content of that result. *)
Theorem backend_failure_policies query s completion w1 c cs calls :
  chat_completions_create H (requestParams (tools (this s)) (initial_messages query)) (world s)
    = (inr completion, w1) ->
  choices completion = c :: cs ->
  tool_calls (message c) = Some calls ->
  exists tr,
    trace (snd (processQuery H query s)) = trace s ++ tr /\
    (forall name v e, In (CallTool name v (inl e)) tr ->
       fst (processQuery H query s) = inl e /\
       chat_requests tr = [requestParams (tools (this s)) (initial_messages query)] /\
       backend_failures tr = [e] /\
       exists before, tr = before ++ [CallTool name v (inl e); query_failed e]) /\
    (forall name v result,
       In (CallTool name v (inr result)) tr ->
       result_isError result = Some true ->
       backend_failures tr = [] ->
       Forall (fun toolCall =>
                 exists a, JSON_parse H (call_arguments (tc_function toolCall)) = inr a) calls ->
       exists req2 pairs toolCall,
         chat_requests tr = [requestParams (tools (this s)) (initial_messages query); req2] /\
         req_tools req2 = None /\
         req_messages req2 = initial_messages query ++ pairs /\
         paired H calls (backend_results tr) pairs /\
         In toolCall calls /\
         In (result_message H toolCall result) pairs).
Proof.
  intros Hfirst Hchoices Hcalls.
  destruct (processQuery_tool_calls_trace H query s Hfirst Hchoices Hcalls)
    as (tr & loop & o & Htr & Hd & _ & Hbr & Hbf & Hshape).
  exists tr. split; [exact Htr|]. split.
  - destruct (backend_failure_aborts query s Hfirst Hchoices Hcalls) as (tr' & Htr' & Habort).
    rewrite Htr in Htr'. apply app_inv_head in Htr'. subst tr'. exact Habort.
  - intros name v result Hin _ Hnofailure Hparsed.
    assert (Hres : In result (backend_results loop)).
    { rewrite <- Hbr. eapply backend_results_In. exact Hin. }
    assert (Hconnected : client (this s) <> None).
    { apply backend_results_called in Hres. destruct Hres as (name' & v' & Hloop).
      eapply dispatched_connected; eassumption. }
    rewrite Hbf in Hnofailure.
    destruct (dispatched_completes Hd Hconnected Hparsed Hnofailure) as [done ->].
    destruct Hshape as (out2 & _ & Hchat & _).
    destruct (dispatched_completed Hd eq_refl) as (Hfst & Hsnd & _ & _).
    rewrite Hsnd in Hres. apply in_map_iff in Hres. destruct Hres as ([toolCall r] & Hr & Hdone).
    cbn in Hr. subst r.
    exists (finalParams (process_env H) (initial_messages query ++ pushed H done)),
      (pushed H done), toolCall.
    split; [unfold chat_requests; now rewrite Hchat|].
    split; [reflexivity|]. split; [reflexivity|].
    split; [rewrite Hbr, Hsnd, <- Hfst; apply pushed_paired|].
    split; [rewrite <- Hfst; now apply (in_map fst) in Hdone|].
    now apply pushed_In.
Qed.

(** C8.  The structured value passed to the backend for a tool call is the
    value [JSON.parse] gives for that call's arguments string, as it is:
    the i-th invocation carries the name of the i-th call and the parse of
    its arguments, and every invocation made is the one of its call. *)
Theorem arguments_forwarded_verbatim query s completion w1 c cs calls :
  chat_completions_create H (requestParams (tools (this s)) (initial_messages query)) (world s)
    = (inr completion, w1) ->
  choices completion = c :: cs ->
  tool_calls (message c) = Some calls ->
  exists tr,
    trace (snd (processQuery H query s)) = trace s ++ tr /\
    (forall i toolCall v sent,
       nth_error calls i = Some toolCall ->
       JSON_parse H (call_arguments (tc_function toolCall)) = inr v ->
       nth_error (backend_calls tr) i = Some sent ->
       sent = (call_name (tc_function toolCall), v)) /\
    (forall i sent,
       nth_error (backend_calls tr) i = Some sent ->
       exists toolCall,
         nth_error calls i = Some toolCall /\
         fst sent = call_name (tc_function toolCall) /\
         JSON_parse H (call_arguments (tc_function toolCall)) = inr (snd sent)).
Proof.
  intros Hfirst Hchoices Hcalls.
  destruct (processQuery_tool_calls_trace H query s Hfirst Hchoices Hcalls)
    as (tr & loop & o & Htr & Hd & Hbc & _ & _ & _).
  exists tr. split; [exact Htr|].
  pose proof (dispatched_in_order Hd) as Horder. rewrite <- Hbc in Horder.
  assert (Hat : forall i sent, nth_error (backend_calls tr) i = Some sent ->
            exists toolCall, nth_error calls i = Some toolCall /\ sent_as H toolCall sent).
  { intros i sent Hsent.
    assert (Hi : i < length (backend_calls tr))
      by (apply nth_error_Some; congruence).
    destruct (nth_error (firstn (length (backend_calls tr)) calls) i) as [toolCall|] eqn:Hnth.
    - exists toolCall. split; [|exact (Forall2_at Horder _ Hnth Hsent)].
      rewrite nth_error_firstn in Hnth.
      destruct (Nat.ltb_spec i (length (backend_calls tr))); [exact Hnth|discriminate].
    - apply nth_error_None in Hnth. apply Forall2_length in Horder. lia. }
  split.
  - intros i toolCall v sent Hcall Hparse Hsent.
    destruct (Hat _ _ Hsent) as (toolCall' & Hcall' & Hname & Hargs).
    assert (toolCall' = toolCall) by congruence. subst toolCall'.
    unfold parsed_arguments in Hargs. destruct sent as [name v']. cbn in *. congruence.
  - intros i sent Hsent. destruct (Hat _ _ Hsent) as (toolCall & Hcall & Hname & Hargs).
    now exists toolCall.
Qed.

(** C3, as the program has it.  A tool call whose arguments do not parse
    aborts the whole query, as a rejected backend invocation does: that call
    and the calls after it never reach the backend, no second chat request is
    made, and the query ends at its [catch] clause, which rethrows: with the
    [SyntaxError] of that call when every call before it went through. *)
Theorem malformed_arguments_abort query s completion w1 c cs earlier toolCall later e :
  chat_completions_create H (requestParams (tools (this s)) (initial_messages query)) (world s)
    = (inr completion, w1) ->
  choices completion = c :: cs ->
  tool_calls (message c) = Some (earlier ++ toolCall :: later) ->
  JSON_parse H (call_arguments (tc_function toolCall)) = inl e ->
  exists tr,
    trace (snd (processQuery H query s)) = trace s ++ tr /\
    length (backend_calls tr) <= length earlier /\
    chat_requests tr = [requestParams (tools (this s)) (initial_messages query)] /\
    (exists e' before,
       fst (processQuery H query s) = inl e' /\ tr = before ++ [query_failed e']) /\
    (length (backend_results tr) = length earlier ->
       fst (processQuery H query s) = inl e).
Proof.
  intros Hfirst Hchoices Hcalls Hparse.
  destruct (processQuery_tool_calls_trace H query s Hfirst Hchoices Hcalls)
    as (tr & loop & o & Htr & Hd & Hbc & Hbr & _ & Hshape).
  exists tr. split; [exact Htr|].
  pose proof Hd as Hstop.
  eapply dispatched_malformed_stops in Hstop; [|exact Hparse].
  destruct Hstop as [[e' ->] Hlen].
  destruct Hshape as (Hout & Hchat & Heq).
  split; [now rewrite Hbc|].
  split; [unfold chat_requests; now rewrite Hchat|].
  split.
  - exists e', (opening (tools (this s)) query (inr completion) ++ loop).
    split; [exact Hout|]. now rewrite Heq, <- app_assoc.
  - intros Hall. rewrite Hbr in Hall.
    eapply dispatched_malformed_first in Hd; [|exact Hparse|exact Hall].
    inversion Hd; subst. exact Hout.
Qed.

End OrchestrationClaims.

(** ** Strings *)

Lemma length_append (s1 s2 : string) :
  String.length (s1 ++ s2) = String.length s1 + String.length s2.
Proof. induction s1 as [|a s1 IH]; cbn; [reflexivity|now rewrite IH]. Qed.

Lemma substring_whole (s : string) : substring 0 (String.length s) s = s.
Proof. induction s as [|a s IH]; cbn; [reflexivity|now rewrite IH]. Qed.

Lemma substring_after (s1 s2 : string) :
  substring (String.length s1) (String.length s2) (s1 ++ s2) = s2.
Proof. induction s1 as [|a s1 IH]; cbn; [apply substring_whole|exact IH]. Qed.

Lemma substring_split (s : string) :
  forall k, k <= String.length s ->
    (substring 0 k s ++ substring k (String.length s - k) s)%string = s.
Proof.
  induction s as [|a s IH]; intros [|k] Hk; cbn in *; try reflexivity; try lia.
  - now rewrite substring_whole.
  - rewrite IH; [reflexivity|lia].
Qed.

(** [endsWith] holds exactly of the strings that are some prefix followed by
    the suffix. *)
Lemma endsWith_spec (s suffix : string) :
  endsWith s suffix = true <-> exists prefix, s = (prefix ++ suffix)%string.
Proof.
  unfold endsWith. split.
  - destruct (Nat.leb_spec (String.length suffix) (String.length s)) as [Hle|Hlt];
      [|discriminate].
    intros Heq. apply String.eqb_eq in Heq.
    exists (substring 0 (String.length s - String.length suffix) s).
    assert (Hsplit := @substring_split s (String.length s - String.length suffix)).
    replace (String.length s - (String.length s - String.length suffix))
      with (String.length suffix) in Hsplit by lia.
    rewrite Heq in Hsplit. symmetry. apply Hsplit. lia.
  - intros [prefix ->]. rewrite length_append.
    destruct (Nat.leb_spec (String.length suffix) (String.length prefix + String.length suffix));
      [|lia].
    replace (String.length prefix + String.length suffix - String.length suffix)
      with (String.length prefix) by lia.
    rewrite substring_after. apply String.eqb_refl.
Qed.

Lemma endsWith_js_not_py (s : string) :
  endsWith s ".js" = true -> endsWith s ".py" = false.
Proof.
  unfold endsWith. cbn [String.length].
  destruct (Nat.leb 3 (String.length s)); [|discriminate].
  intros Hjs. apply String.eqb_eq in Hjs. rewrite Hjs. reflexivity.
Qed.

(** ** Connecting *)

Section Connecting.

Context {W : Type} (H : Host W).

Lemma connectToServer_rejects serverPath s :
  endsWith serverPath ".js" = false ->
  endsWith serverPath ".py" = false ->
  connectToServer H serverPath s
    = (inl (Error "Server script must be a .py or .js file"), s).
Proof. intros Hjs Hpy. unfold connectToServer. rewrite Hjs, Hpy. reflexivity. Qed.

(** With an accepted extension the transport is built and connected; what
    follows launches nothing more. *)
Lemma connectToServer_launches serverPath s :
  endsWith serverPath ".js" || endsWith serverPath ".py" = true ->
  exists out rest,
    trace (snd (connectToServer H serverPath s))
      = trace s ++ [starting_server serverPath;
                    NewTransport (server_transport serverPath);
                    Connect (server_transport serverPath) out] ++ rest /\
    transports rest = [] /\ launches rest = [].
Proof.
  intros Hext. unfold connectToServer.
  replace (negb (endsWith serverPath ".js") && negb (endsWith serverPath ".py"))
    with false by (now destruct (endsWith serverPath ".js"), (endsWith serverPath ".py")).
  fold (server_transport serverPath).
  run_monad.
  destruct (transport_connect H (server_transport serverPath) (world s)) as [[e|u] w1].
  - exists (inl e), [ConsoleError [PStr "连接服务器失败:"; PExn e]].
    cbn [world trace this snd]. rewrite <- !app_assoc. cbn [app transports launches].
    repeat split.
  - cbn [world trace this].
    destruct (client_listTools H w1) as [[e|response] w2].
    + exists (inr u), [ListTools (inl e); ConsoleError [PStr "连接服务器失败:"; PExn e]].
      cbn [world trace this snd]. rewrite <- !app_assoc. cbn [app transports launches].
    repeat split.
    + exists (inr u), [ListTools (inr response);
                       ConsoleLog [PStr "转换后的工具列表:";
                                   PTools (map register_tool (lt_tools response))]].
      cbn [world trace this snd]. rewrite <- !app_assoc. cbn [app transports launches].
    repeat split.
Qed.

(** A successful connection registers the image of the whole catalog. *)
Lemma connectToServer_registers serverPath s u w1 response w2 :
  endsWith serverPath ".js" || endsWith serverPath ".py" = true ->
  transport_connect H (server_transport serverPath) (world s) = (inr u, w1) ->
  client_listTools H w1 = (inr response, w2) ->
  connectToServer H serverPath s
    = (inr tt,
       {| world := w2;
          trace := trace s ++
            [starting_server serverPath;
             NewTransport (server_transport serverPath);
             Connect (server_transport serverPath) (inr u);
             ListTools (inr response);
             ConsoleLog [PStr "转换后的工具列表:";
                         PTools (map register_tool (lt_tools response))]];
          this := {| openai := openai (this s);
                     client := Some weather_client;
                     tools := map register_tool (lt_tools response) |} |}).
Proof.
  intros Hext Hconnect Hlist. unfold connectToServer.
  replace (negb (endsWith serverPath ".js") && negb (endsWith serverPath ".py"))
    with false by (now destruct (endsWith serverPath ".js"), (endsWith serverPath ".py")).
  fold (server_transport serverPath).
  run_monad. rewrite Hconnect. cbn [world trace this]. rewrite Hlist.
  cbn [world trace this]. rewrite <- !app_assoc. reflexivity.
Qed.

End Connecting.

Section Rounds.

Context {W : Type} (H : Host W).

(** Every query starts with the logged first request; at most one more
    request follows, the final one. *)
Lemma processQuery_first_request query s :
  exists out1 rest,
    trace (snd (processQuery H query s))
      = trace s ++ opening (tools (this s)) query out1 ++ rest /\
    (chat_requests rest = [] \/
     exists messages, chat_requests rest = [finalParams (process_env H) messages]).
Proof.
  destruct (chat_completions_create H
              (requestParams (tools (this s)) (initial_messages query)) (world s))
    as [[e|completion] w1] eqn:Hfirst.
  - exists (inl e), [query_failed e].
    unfold processQuery. run_monad. rewrite Hfirst. cbn. rewrite <- !app_assoc. now split; [|left].
  - exists (inr completion).
    destruct (choices completion) as [|c cs] eqn:Hchoices.
    + exists [query_failed no_message].
      unfold processQuery. run_monad. rewrite Hfirst. unfold first_message. rewrite Hchoices.
      cbn. rewrite <- !app_assoc. now split; [|left].
    + destruct (tool_calls (message c)) as [calls|] eqn:Hcalls.
      * destruct (processQuery_tool_calls_trace H query s Hfirst Hchoices Hcalls)
          as (tr & loop & o & Htr & _ & _ & _ & _ & Hshape).
        destruct o as [e|done].
        -- destruct Hshape as (_ & Hchat & Heq).
           remember (loop ++ [query_failed e]) as rest. subst tr.
           exists rest. split; [exact Htr|]. left.
           rewrite chat_exchanges_app in Hchat. unfold opening in Hchat.
           cbn [chat_exchanges app] in Hchat. inversion Hchat as [Hrest].
           unfold chat_requests. now rewrite Hrest.
        -- destruct Hshape as (out2 & _ & Hchat & Heq).
           remember (loop ++ fst (second_round H (initial_messages query ++ pushed H done) out2))
             as rest.
           subst tr. exists rest. split; [exact Htr|]. right.
           rewrite chat_exchanges_app in Hchat. unfold opening in Hchat.
           cbn [chat_exchanges app] in Hchat. inversion Hchat as [Hrest].
           unfold chat_requests. rewrite Hrest. now eexists.
      * exists []. rewrite (processQuery_without_tool_calls H query s Hfirst Hchoices Hcalls).
        cbn [snd trace]. rewrite app_nil_r. now split; [|left].
Qed.

(** The model of each round: the first request names a fixed model, the
    final one the model of the environment, or [gpt-4]. *)
Lemma model_of_each_round query s :
  exists tr req1 later,
    trace (snd (processQuery H query s)) = trace s ++ tr /\
    chat_requests tr = req1 :: later /\
    req_model req1 = "deepseek-ai/DeepSeek-V2.5" /\
    length later <= 1 /\
    forall req2, In req2 later ->
      req_model req2 = or_default (OPENAI_MODEL (process_env H)) "gpt-4".
Proof.
  destruct (processQuery_first_request query s) as (out1 & rest & Htr & Hrest).
  eexists. exists (requestParams (tools (this s)) (initial_messages query)), (chat_requests rest).
  split; [exact Htr|].
  split; [rewrite chat_requests_app; reflexivity|].
  split; [reflexivity|].
  destruct Hrest as [->|(messages & ->)]; cbn.
  - split; [lia|contradiction].
  - split; [lia|]. intros req2 [<-|[]]. reflexivity.
Qed.

(** An empty [tool_calls] array is an array: the loop runs over nothing
    and the second round follows, on the transcript of the first. *)
Lemma processQuery_empty_tool_calls query s completion w1 c cs :
  chat_completions_create H (requestParams (tools (this s)) (initial_messages query)) (world s)
    = (inr completion, w1) ->
  choices completion = c :: cs ->
  tool_calls (message c) = Some [] ->
  exists out2,
    let round := second_round H (initial_messages query) out2 in
    fst (processQuery H query s) = snd round /\
    trace (snd (processQuery H query s))
      = trace s ++ opening (tools (this s)) query (inr completion) ++ fst round.
Proof.
  intros Hfirst Hchoices Hcalls.
  destruct (processQuery_tool_calls_trace H query s Hfirst Hchoices Hcalls)
    as (tr & loop & o & Htr & Hd & _ & _ & _ & Hshape).
  inversion Hd; subst. destruct Hshape as (out2 & Hout & _ & ->).
  exists out2. cbn zeta. unfold pushed in *. cbn [flat_map] in *.
  rewrite app_nil_r in *. cbn [app] in Htr. now split.
Qed.

End Rounds.

Section ConnectionClaims.

Context {W : Type} (H : Host W).

(** C10.  A script path that ends in neither [.js] nor [.py] makes
    [connectToServer] throw with the state untouched: no transport is
    created, nothing is launched, nothing is printed.  A path ending in
    [.py] is launched with [python], one ending in [.js] with [node], each
    with the path as only argument. *)
Theorem server_script_extension serverPath s :
  ((forall prefix, serverPath <> (prefix ++ ".js")%string) ->
   (forall prefix, serverPath <> (prefix ++ ".py")%string) ->
   connectToServer H serverPath s
     = (inl (Error "Server script must be a .py or .js file"), s)) /\
  (forall prefix, serverPath = (prefix ++ ".py")%string ->
     exists tr,
       trace (snd (connectToServer H serverPath s)) = trace s ++ tr /\
       transports tr = [{| command := "python"; args := [serverPath] |}] /\
       launches tr = [{| command := "python"; args := [serverPath] |}]) /\
  (forall prefix, serverPath = (prefix ++ ".js")%string ->
     exists tr,
       trace (snd (connectToServer H serverPath s)) = trace s ++ tr /\
       transports tr = [{| command := "node"; args := [serverPath] |}] /\
       launches tr = [{| command := "node"; args := [serverPath] |}]).
Proof.
  split; [|split].
  - intros Hjs Hpy. apply connectToServer_rejects.
    + destruct (endsWith serverPath ".js") eqn:Hends; [|reflexivity].
      apply endsWith_spec in Hends. destruct Hends as [prefix Heq]. now apply Hjs in Heq.
    + destruct (endsWith serverPath ".py") eqn:Hends; [|reflexivity].
      apply endsWith_spec in Hends. destruct Hends as [prefix Heq]. now apply Hpy in Heq.
  - intros prefix Heq.
    assert (Hpy : endsWith serverPath ".py" = true)
      by (apply endsWith_spec; now exists prefix).
    destruct (connectToServer_launches H serverPath s) as (out & rest & Htr & Ht & Hl).
    { rewrite Hpy. apply orb_true_r. }
    eexists. split; [exact Htr|].
    unfold server_transport. rewrite Hpy. cbn [app transports launches].
    now rewrite Ht, Hl.
  - intros prefix Heq.
    assert (Hjs : endsWith serverPath ".js" = true)
      by (apply endsWith_spec; now exists prefix).
    destruct (connectToServer_launches H serverPath s) as (out & rest & Htr & Ht & Hl).
    { now rewrite Hjs. }
    eexists. split; [exact Htr|].
    unfold server_transport. rewrite (endsWith_js_not_py _ Hjs). cbn [app transports launches].
    now rewrite Ht, Hl.
Qed.

(** The catalog request is rejected: the connection attempt ends in its
    [catch] clause with the registry as it was. *)
Lemma connectToServer_list_rejected serverPath s u w1 e w2 :
  endsWith serverPath ".js" || endsWith serverPath ".py" = true ->
  transport_connect H (server_transport serverPath) (world s) = (inr u, w1) ->
  client_listTools H w1 = (inl e, w2) ->
  connectToServer H serverPath s
    = (inl e,
       {| world := w2;
          trace := trace s ++
            [starting_server serverPath;
             NewTransport (server_transport serverPath);
             Connect (server_transport serverPath) (inr u);
             ListTools (inl e);
             ConsoleError [PStr "连接服务器失败:"; PExn e]];
          this := {| openai := openai (this s);
                     client := Some weather_client;
                     tools := tools (this s) |} |}).
Proof.
  intros Hext Hconnect Hlist. unfold connectToServer.
  replace (negb (endsWith serverPath ".js") && negb (endsWith serverPath ".py"))
    with false by (now destruct (endsWith serverPath ".js"), (endsWith serverPath ".py")).
  fold (server_transport serverPath).
  run_monad. rewrite Hconnect. cbn [world trace this]. rewrite Hlist.
  cbn [world trace this]. rewrite <- !app_assoc. reflexivity.
Qed.

(** C6, as the program has it.  The catalog is registered whole or not at
    all.  When [listTools] resolves, every descriptor of the catalog is
    registered, in catalog order: none is skipped, and the console gets the
    two ordinary lines and no warning.  When [listTools] rejects, which is
    what the SDK client does with an answer in which a descriptor lacks its
    name, the build is aborted: the error is printed with [console.error]
    and rethrown, no catalog is seen and the registry stays as it was. *)
Theorem catalog_registered_whole serverPath s u w1 :
  endsWith serverPath ".js" || endsWith serverPath ".py" = true ->
  transport_connect H (server_transport serverPath) (world s) = (inr u, w1) ->
  let after := connectToServer H serverPath s in
  (forall response w2,
     client_listTools H w1 = (inr response, w2) ->
     fst after = inr tt /\
     length (tools (this (snd after))) = length (lt_tools response) /\
     map (fun t => fn_name (tool_function t)) (tools (this (snd after)))
       = map mcp_name (lt_tools response) /\
     exists tr,
       trace (snd after) = trace s ++ tr /\
       console_lines tr
         = [[PStr ("正在启动 " ++ command (server_transport serverPath)
                   ++ " 服务器: " ++ serverPath)];
            [PStr "转换后的工具列表:"; PTools (tools (this (snd after)))]]) /\
  (forall e w2,
     client_listTools H w1 = (inl e, w2) ->
     fst after = inl e /\
     tools (this (snd after)) = tools (this s) /\
     exists tr,
       trace (snd after) = trace s ++ tr /\
       catalogs tr = [] /\
       console_lines tr
         = [[PStr ("正在启动 " ++ command (server_transport serverPath)
                   ++ " 服务器: " ++ serverPath)];
            [PStr "连接服务器失败:"; PExn e]]).
Proof.
  intros Hext Hconnect after. subst after. split.
  - intros response w2 Hlist.
    rewrite (connectToServer_registers H serverPath s Hext Hconnect Hlist).
    cbn [fst snd this tools trace].
    split; [reflexivity|]. split; [apply length_map|].
    split; [rewrite map_map; reflexivity|].
    eexists. split; reflexivity.
  - intros e w2 Hlist.
    rewrite (connectToServer_list_rejected serverPath s Hext Hconnect Hlist).
    cbn [fst snd this tools trace].
    split; [reflexivity|]. split; [reflexivity|].
    eexists. repeat split.
Qed.

(** C7.  After a successful connection every registered descriptor
    carries the same parameter schema, written out here: an object with the
    properties [latitude] and [longitude], both of type [number], both
    required.  So does every declaration of the first chat request of a
    query.  The registry is the same for any catalog with these names and
    descriptions, whatever input schemas it declares. *)
Theorem fixed_parameter_schema serverPath s u w1 response w2 :
  endsWith serverPath ".js" || endsWith serverPath ".py" = true ->
  transport_connect H (server_transport serverPath) (world s) = (inr u, w1) ->
  client_listTools H w1 = (inr response, w2) ->
  let s1 := snd (connectToServer H serverPath s) in
  let fixed :=
    JObject
      [("type", JString "object");
       ("properties",
        JObject
          [("latitude", JObject [("type", JString "number"); ("description", JString "纬度")]);
           ("longitude", JObject [("type", JString "number"); ("description", JString "经度")])]);
       ("required", JArray [JString "latitude"; JString "longitude"])] in
  map (fun t => fn_name (tool_function t)) (tools (this s1)) = map mcp_name (lt_tools response) /\
  Forall (fun t => fn_parameters (tool_function t) = fixed) (tools (this s1)) /\
  (forall other,
     map (fun t => (mcp_name t, mcp_description t)) other
       = map (fun t => (mcp_name t, mcp_description t)) (lt_tools response) ->
     map register_tool other = tools (this s1)) /\
  forall query,
    exists tr req1 later declared,
      trace (snd (processQuery H query s1)) = trace s1 ++ tr /\
      chat_requests tr = req1 :: later /\
      req_tools req1 = Some declared /\
      map (fun t => fn_name (tool_function t)) declared = map mcp_name (lt_tools response) /\
      Forall (fun t => fn_parameters (tool_function t) = fixed) declared.
Proof.
  intros Hext Hconnect Hlist s1 fixed. subst s1 fixed.
  rewrite (connectToServer_registers H serverPath s Hext Hconnect Hlist).
  cbn [snd this tools].
  split; [rewrite map_map; reflexivity|].
  split; [apply Forall_forall; intros t Hin; apply in_map_iff in Hin;
          destruct Hin as (raw & <- & _); reflexivity|].
  split.
  - intros other. generalize (lt_tools response). clear.
    induction other as [|t other IH]; intros [|t' catalog'] Heq; cbn in Heq;
      try discriminate; [reflexivity|].
    inversion Heq as [[Hname Hdescription Hrest]]. cbn [map].
    rewrite (IH _ Hrest). unfold register_tool. now rewrite Hname, Hdescription.
  - intros query.
    match goal with
    | |- context [processQuery H query ?st] =>
        destruct (processQuery_first_request H query st) as (out1 & rest & Htr & _)
    end.
    cbn [this tools] in Htr.
    eexists. exists (requestParams (map register_tool (lt_tools response)) (initial_messages query)).
    exists (chat_requests rest). eexists.
    split; [exact Htr|].
    split; [rewrite chat_requests_app; reflexivity|].
    split; [reflexivity|].
    split; [rewrite !map_map; reflexivity|].
    apply Forall_forall. intros t Hin. apply in_map_iff in Hin.
    destruct Hin as (registered & <- & _). reflexivity.
Qed.

End ConnectionClaims.

(** ** Runs of the scripted host *)

Example constructor_run : new_MCPClient example_env = inr constructed.
Proof. reflexivity. Qed.

Example connection_run :
  connectToServer example_host "weather.py" (fresh two_calls)
    = (inr tt,
       {| world := two_calls;
          trace := [ConsoleLog [PStr "正在启动 python 服务器: weather.py"];
                    NewTransport {| command := "python"; args := ["weather.py"] |};
                    Connect {| command := "python"; args := ["weather.py"] |} (inr tt);
                    ListTools (inr example_catalog);
                    ConsoleLog [PStr "转换后的工具列表:"; PTools (tools connected_client)]];
          this := connected_client |}).
Proof. reflexivity. Qed.

(** C2, at an empty [tool_calls] array.  The first response carries no
    tool-call request and a text; the program still makes a second chat
    request, over the unchanged transcript, and returns the text of the
    second response. *)
Theorem empty_tool_calls_array_runs_second_round :
  let run := processQuery example_host "hello" (connected empty_array) in
  chat_exchanges (trace (snd run))
    = [(requestParams (tools connected_client) (initial_messages "hello"),
        answers (Some "Hello! Ask me about the weather.") (Some []));
       (finalParams example_env (initial_messages "hello"),
        answers (Some "How can I help you today?") None)] /\
  backend_calls (trace (snd run)) = [] /\
  fst run = inr "How can I help you today?".
Proof. vm_compute. repeat split. Qed.

(** C9, with [OPENAI_MODEL] set to [gpt-4o].  The first request names the
    model written in the program, the second one the model of the
    environment. *)
Theorem first_round_ignores_model_override :
  let run := processQuery example_host weather_query (connected two_calls) in
  OPENAI_MODEL (process_env example_host) = Some "gpt-4o" /\
  map req_model (chat_requests (trace (snd run)))
    = ["deepseek-ai/DeepSeek-V2.5"; "gpt-4o"].
Proof. vm_compute. split; reflexivity. Qed.

(** C3 as stated fails.  The first of two calls has truncated arguments
    and the second is well formed: the second call is not dispatched, no
    second chat request is made, and the query throws. *)
Lemma malformed_arguments_not_recovered :
  let run := processQuery example_host weather_query (connected truncated_first) in
  parsed_arguments example_host truncated_call
    = inl (Exn "SyntaxError" "Unexpected end of JSON input") /\
  parsed_arguments example_host alerts_call = inr (JObject [("state", JString "CA")]) /\
  ~ (In (call_name (tc_function alerts_call)) (map fst (backend_calls (trace (snd run))))
     \/ length (chat_requests (trace (snd run))) = 2
     \/ exists answer, fst run = inr answer).
Proof.
  vm_compute. split; [reflexivity|]. split; [reflexivity|].
  intros [[]|[Hlen|[answer Hanswer]]]; discriminate.
Qed.

(** C4 as stated fails.  The backend fails the first of two calls in
    both runs.  Where the invocation is rejected the query is aborted; where
    the failure is reported in the result the pair is appended and the second
    round gives the answer.  So neither policy is the one the program
    follows. *)
Lemma backend_failures_not_handled_alike :
  let rejected := processQuery example_host weather_query (connected rejected_first) in
  let reported := processQuery example_host weather_query (connected reported_failure) in
  backend_failures (trace (snd rejected)) = [Error "MCP error -32603: upstream timeout"] /\
  map result_isError (backend_results (trace (snd reported))) = [Some true; None] /\
  ~ ((length (chat_requests (trace (snd rejected))) = 2 /\
      length (chat_requests (trace (snd reported))) = 2)
     \/ ((exists e, fst rejected = inl e) /\ (exists e, fst reported = inl e))) /\
  fst rejected = inl (Error "MCP error -32603: upstream timeout") /\
  fst reported = inr "The forecast failed; there are no alerts.".
Proof.
  vm_compute. split; [reflexivity|]. split; [reflexivity|].
  split; [|split; reflexivity].
  intros [[Hlen _]|[_ [e He]]]; discriminate.
Qed.

(** C6 as stated fails.  The backend's answer has a descriptor without a
    name before a well formed one.  The SDK client refuses the answer, so
    [listTools] rejects: the build is aborted, nothing is registered, the
    well formed tool included, and what is printed is the error, with
    [console.error]. *)
Lemma nameless_descriptor_aborts_build :
  let run := connectToServer example_host "weather.py" (fresh nameless_offered) in
  map wire_name nameless_answer = [None; Some "get_forecast"] /\
  catalog nameless_offered = inl invalid_answer /\
  ~ (fst run = inr tt
     \/ In "get_forecast" (map (fun t => fn_name (tool_function t)) (tools (this (snd run))))
     \/ console_errors (trace (snd run)) = []) /\
  fst run = inl invalid_answer /\
  tools (this (snd run)) = [].
Proof.
  vm_compute. split; [reflexivity|]. split; [reflexivity|].
  split; [|split; reflexivity].
  intros [Hok|[[]|Hquiet]]; discriminate.
Qed.

(** ** The theorems at the scripted runs *)

Lemma transcript_pairing_witness :
  let run := processQuery example_host weather_query (connected two_calls) in
  exists req2 pairs,
    nth_error (chat_requests (trace (snd run))) 1 = Some req2 /\
    req_messages req2 = initial_messages weather_query ++ pairs /\
    paired example_host [forecast_call; alerts_call] [sunny; no_alerts] pairs /\
    length pairs = 4 /\
    map fst (backend_calls (trace (snd run))) = ["get_forecast"; "get_alerts"].
Proof.
  destruct (@transcript_pairing _ example_host weather_query (connected two_calls)
              _ _ _ _ [forecast_call; alerts_call] eq_refl eq_refl eq_refl)
    as (tr & Htr & _ & Hsecond & _ & _).
  { cbn. lia. }
  vm_compute in Htr. subst tr.
  edestruct Hsecond as (pairs & Hmessages & Hpaired & Hlength & _); [reflexivity|].
  cbn zeta. eexists. exists pairs.
  split; [reflexivity|]. split; [exact Hmessages|]. split; [exact Hpaired|].
  split; [exact Hlength|reflexivity].
Defined.

Lemma second_round_is_final_witness :
  let run := processQuery example_host weather_query (connected two_calls) in
  length (chat_exchanges (trace (snd run))) <= 2 /\
  fst run = inr "It is sunny, 22C, with no alerts." /\
  map fst (backend_calls (trace (snd run))) = ["get_forecast"; "get_alerts"] /\
  exists before req2,
    trace (snd run) = before ++ [ChatCreate req2 (nth 1 (chat_answers two_calls) (inl hung_up))].
Proof.
  destruct (@second_round_is_final _ example_host weather_query (connected two_calls)
              _ _ _ _ [forecast_call; alerts_call] eq_refl eq_refl eq_refl)
    as (tr & Htr & Hlength & Hsecond).
  { cbn. lia. }
  vm_compute in Htr. subst tr.
  split; [exact Hlength|].
  edestruct Hsecond as (_ & _ & _ & Hanswer); [reflexivity|].
  destruct (Hanswer _ (Some "It is sunny, 22C, with no alerts.") _ _ eq_refl eq_refl)
    as (Htext & before & Hlast).
  split; [exact Htext|]. split; [reflexivity|].
  eexists before, _. exact Hlast.
Defined.

Lemma backend_failure_aborts_witness :
  let run := processQuery example_host weather_query (connected rejected_first) in
  fst run = inl (Error "MCP error -32603: upstream timeout") /\
  length (chat_requests (trace (snd run))) = 1.
Proof.
  destruct (@backend_failure_aborts _ example_host weather_query (connected rejected_first)
              _ _ _ _ [forecast_call; alerts_call] eq_refl eq_refl eq_refl)
    as (tr & Htr & Hfailure).
  vm_compute in Htr. subst tr.
  edestruct Hfailure as (Hout & Hchat & _).
  { right. right. left. reflexivity. }
  split; [exact Hout|]. reflexivity.
Defined.

Lemma backend_failure_policies_witness :
  (let run := processQuery example_host weather_query (connected rejected_first) in
   fst run = inl (Error "MCP error -32603: upstream timeout") /\
   length (chat_requests (trace (snd run))) = 1) /\
  (let run := processQuery example_host weather_query (connected reported_failure) in
   exists req2 toolCall,
     nth_error (chat_requests (trace (snd run))) 1 = Some req2 /\
     In toolCall [forecast_call; alerts_call] /\
     In (result_message example_host toolCall upstream_failed) (req_messages req2)).
Proof.
  split.
  - destruct (@backend_failure_policies _ example_host weather_query (connected rejected_first)
                _ _ _ _ [forecast_call; alerts_call] eq_refl eq_refl eq_refl)
      as (tr & Htr & Hrejected & _).
    vm_compute in Htr. subst tr.
    edestruct Hrejected as (Hout & Hchat & _).
    { right. right. left. reflexivity. }
    split; [exact Hout|reflexivity].
  - destruct (@backend_failure_policies _ example_host weather_query (connected reported_failure)
                _ _ _ _ [forecast_call; alerts_call] eq_refl eq_refl eq_refl)
      as (tr & Htr & _ & Hreported).
    vm_compute in Htr. subst tr.
    edestruct Hreported as (req2 & pairs & toolCall & Hchat & _ & Hmessages & _ & Hcall & Hin).
    { right. right. left. reflexivity. }
    { reflexivity. }
    { reflexivity. }
    { repeat constructor; eexists; reflexivity. }
    cbn zeta. exists req2, toolCall. split; [|split].
    + apply (f_equal (fun l => nth_error l 1)) in Hchat. exact Hchat.
    + exact Hcall.
    + rewrite Hmessages. apply in_or_app. right. exact Hin.
Defined.

Lemma arguments_forwarded_verbatim_witness :
  let run := processQuery example_host weather_query (connected two_calls) in
  nth_error (backend_calls (trace (snd run))) 0
    = Some ("get_forecast",
            JObject [("latitude", JNumber 37.7%float); ("longitude", JNumber (-122.4)%float)]).
Proof.
  destruct (@arguments_forwarded_verbatim _ example_host weather_query (connected two_calls)
              _ _ _ _ [forecast_call; alerts_call] eq_refl eq_refl eq_refl)
    as (tr & Htr & Hsent & _).
  vm_compute in Htr. subst tr.
  cbn zeta. erewrite <- (Hsent 0 forecast_call); reflexivity.
Defined.

Lemma malformed_arguments_abort_witness :
  let run := processQuery example_host weather_query (connected truncated_first) in
  fst run = inl (Exn "SyntaxError" "Unexpected end of JSON input") /\
  backend_calls (trace (snd run)) = [] /\
  length (chat_requests (trace (snd run))) = 1.
Proof.
  destruct (@malformed_arguments_abort _ example_host weather_query (connected truncated_first)
              _ _ _ _ [] truncated_call [alerts_call]
              (Exn "SyntaxError" "Unexpected end of JSON input")
              eq_refl eq_refl eq_refl eq_refl)
    as (tr & Htr & Hnone & Hchat & _ & Hfirst).
  vm_compute in Htr. subst tr.
  split; [apply Hfirst; reflexivity|]. split; reflexivity.
Defined.

Lemma server_script_extension_witness :
  connectToServer example_host "weather.sh" (fresh two_calls)
    = (inl (Error "Server script must be a .py or .js file"), fresh two_calls) /\
  launches (trace (snd (connectToServer example_host "weather.py" (fresh two_calls))))
    = [{| command := "python"; args := ["weather.py"] |}] /\
  launches (trace (snd (connectToServer example_host "build/index.js" (fresh two_calls))))
    = [{| command := "node"; args := ["build/index.js"] |}].
Proof.
  split; [|split].
  - apply (proj1 (server_script_extension example_host "weather.sh" (fresh two_calls)));
      intros prefix Heq;
      [assert (Hends : endsWith "weather.sh" ".js" = true)
      |assert (Hends : endsWith "weather.sh" ".py" = true)];
      try (apply endsWith_spec; now exists prefix); discriminate.
  - destruct (proj1 (proj2 (server_script_extension example_host "weather.py" (fresh two_calls)))
                "weather" eq_refl) as (tr & Htr & _ & Hlaunches).
    rewrite Htr. exact Hlaunches.
  - destruct (proj2 (proj2 (server_script_extension example_host "build/index.js"
                              (fresh two_calls)))
                "build/index" eq_refl) as (tr & Htr & _ & Hlaunches).
    rewrite Htr. exact Hlaunches.
Defined.

Lemma catalog_registered_whole_witness :
  (let after := connectToServer example_host "weather.py" (fresh two_calls) in
   fst after = inr tt /\
   map (fun t => fn_name (tool_function t)) (tools (this (snd after)))
     = ["get_air_quality"; "get_forecast"]) /\
  (let after := connectToServer example_host "weather.py" (fresh nameless_offered) in
   fst after = inl invalid_answer /\
   tools (this (snd after)) = []).
Proof.
  split.
  - destruct (proj1 (@catalog_registered_whole _ example_host "weather.py" (fresh two_calls)
                       tt two_calls eq_refl eq_refl) example_catalog two_calls eq_refl)
      as (Hout & _ & Hnames & _).
    split; [exact Hout|exact Hnames].
  - destruct (proj2 (@catalog_registered_whole _ example_host "weather.py"
                       (fresh nameless_offered) tt nameless_offered eq_refl eq_refl)
                invalid_answer nameless_offered eq_refl)
      as (Hout & Htools & _).
    split; [exact Hout|exact Htools].
Defined.

Lemma fixed_parameter_schema_witness :
  let s1 := snd (connectToServer example_host "weather.py" (fresh two_calls)) in
  Forall (fun t =>
            fn_parameters (tool_function t)
              = JObject
                  [("type", JString "object");
                   ("properties",
                    JObject
                      [("latitude",
                        JObject [("type", JString "number"); ("description", JString "纬度")]);
                       ("longitude",
                        JObject [("type", JString "number"); ("description", JString "经度")])]);
                   ("required", JArray [JString "latitude"; JString "longitude"])])
    (tools (this s1)) /\
  Forall (fun t => fn_parameters (tool_function t) <> mcp_inputSchema forecast_tool)
    (tools (this s1)).
Proof.
  destruct (@fixed_parameter_schema _ example_host "weather.py" (fresh two_calls)
              tt two_calls example_catalog two_calls eq_refl eq_refl eq_refl)
    as (_ & Hfixed & _).
  split; [exact Hfixed|].
  eapply Forall_impl; [|exact Hfixed].
  intros t Ht. cbn beta in Ht. rewrite Ht. discriminate.
Defined.

(** * Further properties of the methods *)

Lemma console_errors_app tr1 tr2 :
  console_errors (tr1 ++ tr2) = console_errors tr1 ++ console_errors tr2.
Proof.
  induction tr1 as [|ev tr1 IH]; [reflexivity|].
  destruct ev; cbn; rewrite ?IH; reflexivity.
Qed.

Section QueryOutcomes.

Context {W : Type} (H : Host W).

Lemma dispatched_no_console_error self calls tr o :
  dispatched H self calls tr o -> console_errors tr = [].
Proof. induction 1; cbn; auto. Qed.

(** The first request is rejected: the query ends in its [catch] clause. *)
Lemma processQuery_first_rejected query s e w1 :
  chat_completions_create H (requestParams (tools (this s)) (initial_messages query)) (world s)
    = (inl e, w1) ->
  processQuery H query s
    = (inl e,
       {| world := w1;
          trace := trace s ++ opening (tools (this s)) query (inl e) ++ [query_failed e];
          this := this s |}).
Proof.
  intros Hfirst. unfold processQuery. run_monad. rewrite Hfirst.
  cbn. rewrite <- !app_assoc. reflexivity.
Qed.

(** The first response has an empty [choices] array. *)
Lemma processQuery_no_choice query s completion w1 :
  chat_completions_create H (requestParams (tools (this s)) (initial_messages query)) (world s)
    = (inr completion, w1) ->
  choices completion = [] ->
  processQuery H query s
    = (inl no_message,
       {| world := w1;
          trace := trace s ++ opening (tools (this s)) query (inr completion)
                     ++ [query_failed no_message];
          this := this s |}).
Proof.
  intros Hfirst Hchoices. unfold processQuery. run_monad. rewrite Hfirst.
  unfold first_message. rewrite Hchoices. cbn. rewrite <- !app_assoc. reflexivity.
Qed.

(** The four ways the first exchange of a query can go. *)
Ltac first_exchange H query s :=
  let e := fresh "e" in
  let completion := fresh "completion" in
  let w1 := fresh "w1" in
  let c := fresh "c" in
  let cs := fresh "cs" in
  let calls := fresh "calls" in
  destruct (chat_completions_create H
              (requestParams (tools (this s)) (initial_messages query)) (world s))
    as [[e|completion] w1] eqn:Hfirst;
  [|destruct (choices completion) as [|c cs] eqn:Hchoices;
    [|destruct (tool_calls (message c)) as [calls|] eqn:Hcalls]].

Lemma processQuery_this query s :
  this (snd (processQuery H query s)) = this s.
Proof.
  first_exchange H query s.
  - now rewrite (processQuery_first_rejected query s Hfirst).
  - now rewrite (processQuery_no_choice query s Hfirst Hchoices).
  - destruct (processQuery H query s) as [out s'] eqn:Hrun.
    eapply processQuery_tool_calls in Hrun; [|eassumption..].
    destruct Hrun as (tr & o & _ & Hthis & _). exact Hthis.
  - now rewrite (processQuery_without_tool_calls H query s Hfirst Hchoices Hcalls).
Qed.

(** X1.  A query reads the object and never writes it: the registry, the
    client and the configuration are the same after [processQuery], however
    the query ends, and so after any number of queries in a row. *)
Theorem query_keeps_object queries s :
  this (fold_left (fun st query => snd (processQuery H query st)) queries s) = this s.
Proof.
  revert s. induction queries as [|query queries IH]; intros s; cbn [fold_left].
  - reflexivity.
  - rewrite IH. apply processQuery_this.
Qed.

(** X2.  No transcript survives a query: whatever an earlier query asked
    and however it ended, the first request of the next query carries the
    system message and that query's own text only, with the same tool
    declarations. *)
Theorem queries_share_no_transcript earlier query s :
  let s1 := snd (processQuery H earlier s) in
  exists tr later,
    trace (snd (processQuery H query s1)) = trace s1 ++ tr /\
    chat_requests tr = requestParams (tools (this s)) (initial_messages query) :: later /\
    length later <= 1.
Proof.
  intros s1.
  destruct (processQuery_first_request H query s1) as (out1 & rest & Htr & Hrest).
  subst s1. rewrite processQuery_this in Htr.
  eexists. exists (chat_requests rest). split; [exact Htr|].
  split; [rewrite chat_requests_app; reflexivity|].
  destruct Hrest as [->|(messages & ->)]; cbn; lia.
Qed.

(** X3.  A query that throws has printed its exception with
    [console.error] exactly once, as the last thing it did; a query that
    answers has printed no error. *)
Theorem query_failure_logged_once query s :
  exists tr,
    trace (snd (processQuery H query s)) = trace s ++ tr /\
    match fst (processQuery H query s) with
    | inl e =>
        console_errors tr = [[PStr "处理查询失败:"; PExn e]] /\
        exists before, tr = before ++ [query_failed e]
    | inr _ => console_errors tr = []
    end.
Proof.
  first_exchange H query s.
  - rewrite (processQuery_first_rejected query s Hfirst). cbn [fst snd trace].
    eexists. split; [reflexivity|]. split; [reflexivity|]. now eexists.
  - rewrite (processQuery_no_choice query s Hfirst Hchoices). cbn [fst snd trace].
    eexists. split; [reflexivity|]. split; [reflexivity|]. now eexists.
  - destruct (processQuery_tool_calls_trace H query s Hfirst Hchoices Hcalls)
      as (tr & loop & o & Htr & Hd & _ & _ & _ & Hshape).
    exists tr. split; [exact Htr|].
    pose proof (dispatched_no_console_error Hd) as Hquiet.
    destruct o as [e|done].
    + destruct Hshape as (-> & _ & ->).
      rewrite !console_errors_app, Hquiet. split; [reflexivity|].
      exists (opening (tools (this s)) query (inr completion) ++ loop).
      now rewrite <- app_assoc.
    + destruct Hshape as (out2 & -> & _ & ->).
      rewrite !console_errors_app, Hquiet. unfold second_round.
      destruct out2 as [e|final]; [|destruct (choices final)]; cbn [fst snd].
      * split; [reflexivity|]. eexists. rewrite !app_assoc. reflexivity.
      * split; [reflexivity|]. eexists. rewrite !app_assoc. reflexivity.
      * reflexivity.
  - rewrite (processQuery_without_tool_calls H query s Hfirst Hchoices Hcalls).
    cbn [fst snd trace]. eexists. split; reflexivity.
Qed.

(** X4.  When the first chat request is rejected, or is answered with no
    choice, the query throws (the rejection, or the [TypeError] of reading
    [message] of [undefined]) after that single exchange: the backend is not
    invoked and no second request is made. *)
Theorem first_round_failure query s out1 w1 :
  chat_completions_create H (requestParams (tools (this s)) (initial_messages query)) (world s)
    = (out1, w1) ->
  (forall completion, out1 = inr completion -> choices completion = []) ->
  let thrown := match out1 with inl e => e | inr _ => no_message end in
  processQuery H query s
    = (inl thrown,
       {| world := w1;
          trace := trace s ++ opening (tools (this s)) query out1 ++ [query_failed thrown];
          this := this s |}) /\
  backend_calls (opening (tools (this s)) query out1 ++ [query_failed thrown]) = [] /\
  chat_exchanges (opening (tools (this s)) query out1 ++ [query_failed thrown])
    = [(requestParams (tools (this s)) (initial_messages query), out1)].
Proof.
  intros Hfirst Hempty thrown. subst thrown.
  destruct out1 as [e|completion].
  - rewrite (processQuery_first_rejected query s Hfirst). repeat split.
  - rewrite (processQuery_no_choice query s Hfirst (Hempty _ eq_refl)). repeat split.
Qed.

(** X5.  On an object that was never connected, a first response asking
    for a tool call whose arguments parse makes the query throw the
    [TypeError] of reading [callTool] of [undefined]: nothing is sent to the
    backend and no second request is made. *)
Theorem unconnected_query_throws query s completion w1 c cs toolCall calls v :
  client (this s) = None ->
  chat_completions_create H (requestParams (tools (this s)) (initial_messages query)) (world s)
    = (inr completion, w1) ->
  choices completion = c :: cs ->
  tool_calls (message c) = Some (toolCall :: calls) ->
  JSON_parse H (call_arguments (tc_function toolCall)) = inr v ->
  exists tr,
    trace (snd (processQuery H query s)) = trace s ++ tr /\
    fst (processQuery H query s) = inl unconnected /\
    backend_calls tr = [] /\
    chat_requests tr = [requestParams (tools (this s)) (initial_messages query)].
Proof.
  intros Hnone Hfirst Hchoices Hcalls Hparse.
  destruct (processQuery_tool_calls_trace H query s Hfirst Hchoices Hcalls)
    as (tr & loop & o & Htr & Hd & Hbc & _ & _ & Hshape).
  exists tr. split; [exact Htr|].
  inversion Hd; subst; unfold parsed_arguments in *; try congruence.
  destruct Hshape as (Hout & Hchat & _).
  split; [exact Hout|]. split; [now rewrite Hbc|].
  unfold chat_requests. now rewrite Hchat.
Qed.

(** X6.  Every query makes one or two chat requests, and never invokes the
    backend more often than the first response has tool calls: not at all
    when the first request fails or its answer has no [tool_calls]. *)
Theorem exchanges_bounded query s :
  exists tr,
    trace (snd (processQuery H query s)) = trace s ++ tr /\
    1 <= length (chat_requests tr) <= 2 /\
    length (backend_calls tr) <= calls_requested tr.
Proof.
  first_exchange H query s.
  - rewrite (processQuery_first_rejected query s Hfirst). cbn [snd trace].
    eexists. split; [reflexivity|]. cbn. lia.
  - rewrite (processQuery_no_choice query s Hfirst Hchoices). cbn [snd trace].
    eexists. split; [reflexivity|]. cbn. lia.
  - destruct (processQuery_tool_calls_trace H query s Hfirst Hchoices Hcalls)
      as (tr & loop & o & Htr & Hd & Hbc & _ & _ & Hshape).
    exists tr. split; [exact Htr|].
    pose proof (dispatched_bound Hd) as Hbound. rewrite <- Hbc in Hbound.
    unfold calls_requested, chat_requests.
    destruct o as [e|done].
    + destruct Hshape as (_ & -> & _). cbn. rewrite Hchoices, Hcalls. lia.
    + destruct Hshape as (out2 & _ & -> & _). cbn. rewrite Hchoices, Hcalls. lia.
  - rewrite (processQuery_without_tool_calls H query s Hfirst Hchoices Hcalls).
    cbn [snd trace]. eexists. split; [reflexivity|]. cbn. lia.
Qed.

(** X7.  A tool call is dispatched by the name the model wrote, without a
    look at the registry: on a connected object the first call of the array,
    if its arguments parse, is sent to the backend under its own name even
    when no registered tool has that name. *)
Theorem unregistered_tool_dispatched query s completion w1 c cs toolCall calls v :
  client (this s) <> None ->
  ~ In (call_name (tc_function toolCall))
       (map (fun t => fn_name (tool_function t)) (tools (this s))) ->
  chat_completions_create H (requestParams (tools (this s)) (initial_messages query)) (world s)
    = (inr completion, w1) ->
  choices completion = c :: cs ->
  tool_calls (message c) = Some (toolCall :: calls) ->
  JSON_parse H (call_arguments (tc_function toolCall)) = inr v ->
  exists tr more,
    trace (snd (processQuery H query s)) = trace s ++ tr /\
    backend_calls tr = (call_name (tc_function toolCall), v) :: more.
Proof.
  intros Hconnected _ Hfirst Hchoices Hcalls Hparse.
  destruct (processQuery_tool_calls_trace H query s Hfirst Hchoices Hcalls)
    as (tr & loop & o & Htr & Hd & Hbc & _ & _ & _).
  exists tr. rewrite Hbc.
  inversion Hd; subst; unfold parsed_arguments in *; try congruence;
    eexists; (split; [exact Htr|]); cbn; repeat f_equal; congruence.
Qed.

End QueryOutcomes.

Section ConnectionOutcomes.

Context {W : Type} (H : Host W).

(** X8.  A connection attempt that throws leaves the registry and the
    configuration as they were and registers no catalog.  Either the
    extension was refused and nothing happened at all, or the client object
    was assigned, the exception is the one [connect] or [listTools] was
    rejected with, and it was printed once with [console.error]. *)
Theorem connect_failure_keeps_registry serverPath s e :
  fst (connectToServer H serverPath s) = inl e ->
  let s' := snd (connectToServer H serverPath s) in
  tools (this s') = tools (this s) /\
  openai (this s') = openai (this s) /\
  exists tr,
    trace s' = trace s ++ tr /\
    ((tr = [] /\ s' = s) \/
     (client (this s') = Some weather_client /\
      console_errors tr = [[PStr "连接服务器失败:"; PExn e]] /\
      (In (Connect (server_transport serverPath) (inl e)) tr \/
       In (ListTools (inl e)) tr))).
Proof.
  unfold connectToServer. fold (server_transport serverPath).
  destruct (negb (endsWith serverPath ".js") && negb (endsWith serverPath ".py")).
  - cbn. intros _. repeat split. exists []. rewrite app_nil_r. split; [reflexivity|now left].
  - run_monad.
    destruct (transport_connect H (server_transport serverPath) (world s)) as [[e1|u] w1].
    + cbn [fst snd this tools openai client trace]. intros Heq. inversion Heq; subst e1.
      repeat split. eexists. rewrite <- !app_assoc. split; [reflexivity|].
      right. cbn. repeat split. left. right. right. now left.
    + cbn [world trace this].
      destruct (client_listTools H w1) as [[e2|response] w2].
      * cbn [fst snd this tools openai client trace]. intros Heq. inversion Heq; subst e2.
        repeat split. eexists. rewrite <- !app_assoc. split; [reflexivity|].
        right. cbn. repeat split. right. right. right. right. now left.
      * cbn [fst]. discriminate.
Qed.

End ConnectionOutcomes.

(** * The command line *)

Ltac run_proc :=
  unfold pbind, pret, ptry, print, print_error, say, process_exit;
  cbn [pworld pthis log fst snd].

Lemma core_events_app l1 l2 : core_events (l1 ++ l2) = core_events l1 ++ core_events l2.
Proof.
  induction l1 as [|a l1 IH]; [reflexivity|]. destruct a; cbn; rewrite ?IH; reflexivity.
Qed.

Lemma core_events_Did tr : core_events (map Did tr) = tr.
Proof. induction tr as [|ev tr IH]; cbn; [reflexivity|now rewrite IH]. Qed.

Lemma interface_closes_app l1 l2 :
  interface_closes (l1 ++ l2) = interface_closes l1 + interface_closes l2.
Proof.
  induction l1 as [|a l1 IH]; [reflexivity|]. destruct a; cbn; rewrite ?IH; reflexivity.
Qed.

Lemma interface_closes_Did tr : interface_closes (map Did tr) = 0.
Proof. induction tr as [|ev tr IH]; cbn; [reflexivity|exact IH]. Qed.

Lemma transport_closes_app l1 l2 :
  transport_closes (l1 ++ l2) = transport_closes l1 ++ transport_closes l2.
Proof.
  induction l1 as [|a l1 IH]; [reflexivity|]. destruct a; cbn; rewrite ?IH; reflexivity.
Qed.

Lemma transport_closes_Did tr : transport_closes (map Did tr) = [].
Proof. induction tr as [|ev tr IH]; cbn; [reflexivity|exact IH]. Qed.

Lemma listeners_app l1 l2 : listeners (l1 ++ l2) = listeners l1 ++ listeners l2.
Proof.
  induction l1 as [|a l1 IH]; [reflexivity|]. destruct a; cbn; rewrite ?IH; reflexivity.
Qed.

Lemma listeners_Did tr : listeners (map Did tr) = [].
Proof. induction tr as [|ev tr IH]; cbn; [reflexivity|exact IH]. Qed.

Lemma first_rounds_app tr1 tr2 :
  first_rounds (tr1 ++ tr2) = first_rounds tr1 ++ first_rounds tr2.
Proof. unfold first_rounds. now rewrite chat_requests_app, filter_app. Qed.

Lemma first_rounds_framed l before after :
  first_rounds (core_events before) = [] ->
  first_rounds (core_events after) = [] ->
  first_rounds (core_events (before ++ l ++ after)) = first_rounds (core_events l).
Proof.
  intros Hbefore Hafter.
  now rewrite !core_events_app, !first_rounds_app, Hbefore, Hafter, app_nil_r.
Qed.

Lemma pbind_ext {W A B} (m : P W A) (k1 k2 : A -> P W B) p :
  (forall a p', k1 a p' = k2 a p') -> pbind m k1 p = pbind m k2 p.
Proof.
  intros Hk. unfold pbind. destruct (m p) as [[a|e|code] p']; [apply Hk|reflexivity..].
Qed.

Section CommandLine.

Context {W : Type} (H : Host W) (R : Runtime W).

(** A query run from the command line: the object stays, the log grows by
    the events of the query, among which one first-round request. *)
Lemma method_processQuery query p :
  exists tr,
    pthis (snd (method (processQuery H query) p)) = pthis p /\
    log (snd (method (processQuery H query) p)) = log p ++ map Did tr /\
    first_rounds tr = [requestParams (tools (pthis p)) (initial_messages query)] /\
    forall code, fst (method (processQuery H query) p) <> Exited code.
Proof.
  unfold method.
  set (s := {| world := pworld p; trace := []; this := pthis p |}).
  pose proof (processQuery_this H query s) as Hthis.
  destruct (processQuery_first_request H query s) as (out1 & rest & Htr & Hrest).
  destruct (processQuery H query s) as [out s'].
  cbn [fst snd pthis log] in *. exists (trace s').
  split; [exact Hthis|]. split; [reflexivity|].
  split; [|intros code; destruct out; discriminate].
  rewrite Htr. cbn [trace s app]. rewrite first_rounds_app.
  unfold first_rounds at 1. cbn.
  unfold first_rounds. destruct Hrest as [->|(messages & ->)]; reflexivity.
Qed.

(** The reading loop never throws and never exits; it leaves the object as
    it was, and asks the trimmed lines before the first [quit], in order. *)
Lemma read_lines_spec lines :
  forall p,
  exists l,
    fst (read_lines H R lines p) = Returned tt /\
    pthis (snd (read_lines H R lines p)) = pthis p /\
    log (snd (read_lines H R lines p)) = log p ++ l /\
    first_rounds (core_events l)
      = map (fun query => requestParams (tools (pthis p)) (initial_messages query))
          (queries_of R lines) /\
    interface_closes l = 0 /\
    transport_closes l = [] /\
    listeners l = [].
Proof.
  induction lines as [|line rest IH]; intros p.
  - exists []. cbn. now rewrite app_nil_r.
  - cbn [read_lines queries_of].
    destruct (is_quit R (trim R line)).
    + run_proc. eexists. repeat split.
    + destruct (method_processQuery (trim R line) p) as (tr & Hthis & Hlog & Hfirst & Hnoexit).
      run_proc.
      destruct (method (processQuery H (trim R line)) p) as [[response|e|code] p1];
        cbn [fst snd pworld pthis log] in *; [| |now destruct (Hnoexit code)].
      * match goal with
        | |- context [read_lines H R rest ?q] => destruct (IH q) as (l & Hret & Hobj & Hl & Hasked & Hi & Ht & Hn)
        end.
        cbn [pthis log] in Hobj, Hl, Hasked.
        exists (map Did tr ++ [Did (ConsoleLog [PStr (newline ++ "回复:"); PStr response]);
                               Did (ConsoleLog [PStr (newline ++ "输入问题:")])] ++ l).
        split; [exact Hret|]. split; [now rewrite Hobj|].
        split; [rewrite Hl, Hlog, <- !app_assoc; reflexivity|].
        rewrite !core_events_app, core_events_Did, !first_rounds_app, Hfirst, Hasked, Hthis.
        rewrite !interface_closes_app, !transport_closes_app, !listeners_app,
          interface_closes_Did, transport_closes_Did, listeners_Did, Hi, Ht, Hn.
        repeat split.
      * match goal with
        | |- context [read_lines H R rest ?q] => destruct (IH q) as (l & Hret & Hobj & Hl & Hasked & Hi & Ht & Hn)
        end.
        cbn [pthis log] in Hobj, Hl, Hasked.
        exists (map Did tr ++ [Did (ConsoleError [PStr "错误:"; PExn e]);
                               Did (ConsoleLog [PStr (newline ++ "输入问题:")])] ++ l).
        split; [exact Hret|]. split; [now rewrite Hobj|].
        split; [rewrite Hl, Hlog, <- !app_assoc; reflexivity|].
        rewrite !core_events_app, core_events_Did, !first_rounds_app, Hfirst, Hasked, Hthis.
        rewrite !interface_closes_app, !transport_closes_app, !listeners_app,
          interface_closes_Did, transport_closes_Did, listeners_Did, Hi, Ht, Hn.
        repeat split.
Qed.

(** After a [quit] line the loop reads no further. *)
Lemma read_lines_quit before :
  forall line after p,
    is_quit R (trim R line) = true ->
    read_lines H R (before ++ line :: after) p = read_lines H R (before ++ [line]) p.
Proof.
  induction before as [|first before IH]; intros line after p Hquit; cbn [app read_lines].
  - now rewrite Hquit.
  - destruct (is_quit R (trim R first)); [reflexivity|].
    apply pbind_ext. intros _ p1. apply pbind_ext. intros _ p2. now apply IH.
Qed.

(** X9.  [chatLoop] stops reading at a line that is [quit] once trimmed
    and lowered: whatever lines follow it, the loop does exactly what it does
    when the input ends there. *)
Theorem quit_ends_chat_loop before line after p :
  toLowerCase R (trim R line) = "quit" ->
  chatLoop H R (before ++ line :: after) p = chatLoop H R (before ++ [line]) p.
Proof.
  intros Hquit.
  assert (Hq : is_quit R (trim R line) = true)
    by (unfold is_quit; rewrite Hquit; reflexivity).
  unfold chatLoop.
  apply pbind_ext. intros _ p1. apply pbind_ext. intros _ p2. apply pbind_ext. intros _ p3.
  unfold pbind at 1 3. now rewrite (read_lines_quit before line after p3 Hq).
Qed.

(** X10.  [chatLoop] asks every line before the first [quit] as a query
    of its own, trimmed, in the order read, the empty line included: the
    first-round requests it makes are those of these queries, each with the
    system message, the line and the tools of the registry, and the object is
    the same afterwards. *)
Theorem chat_loop_asks_each_line lines p :
  exists l,
    log (snd (chatLoop H R lines p)) = log p ++ l /\
    pthis (snd (chatLoop H R lines p)) = pthis p /\
    first_rounds (core_events l)
      = map (fun query => requestParams (tools (pthis p)) (initial_messages query))
          (queries_of R lines).
Proof.
  unfold chatLoop. run_proc.
  match goal with
  | |- context [read_lines H R lines ?q] =>
      destruct (read_lines_spec lines q) as (l & Hret & Hobj & Hl & Hasked & _);
      destruct (read_lines H R lines q) as [e p1]
  end.
  cbn [fst snd pthis log] in *. subst e.
  unfold cleanup. cbn [pworld pthis log].
  destruct (client (pthis p1));
    [destruct (client_transport R (pworld p1));
     [destruct (transport_close R (pworld p1)) as [out w']|]|];
    cbn [fst snd pthis log]; rewrite Hl.
  - exists ([Did (ConsoleLog started_line); Did (ConsoleLog help_line); CreateInterface]
            ++ l ++ [CloseInterface; CloseTransport out]).
    split; [rewrite <- !app_assoc; reflexivity|]. split; [exact Hobj|].
    rewrite first_rounds_framed by reflexivity. exact Hasked.
  - exists ([Did (ConsoleLog started_line); Did (ConsoleLog help_line); CreateInterface]
            ++ l ++ [CloseInterface]).
    split; [rewrite <- !app_assoc; reflexivity|]. split; [exact Hobj|].
    rewrite first_rounds_framed by reflexivity. exact Hasked.
  - exists ([Did (ConsoleLog started_line); Did (ConsoleLog help_line); CreateInterface]
            ++ l ++ [CloseInterface]).
    split; [rewrite <- !app_assoc; reflexivity|]. split; [exact Hobj|].
    rewrite first_rounds_framed by reflexivity. exact Hasked.
Qed.

(** X11.  [chatLoop] always tears down, and in this order: the readline
    interface is closed once, after the last query, and then the transport
    is closed at most once: never on an object whose client was not
    assigned.  No failed query makes [chatLoop] throw; it throws only when
    the closing of the transport is rejected, with that exception. *)
Theorem chat_loop_tears_down lines p :
  exists body closes,
    log (snd (chatLoop H R lines p))
      = log p ++ body ++ CloseInterface :: map CloseTransport closes /\
    interface_closes body = 0 /\
    transport_closes body = [] /\
    length closes <= 1 /\
    (client (pthis p) = None -> closes = []) /\
    fst (chatLoop H R lines p)
      = match closes with
        | inl e :: _ => Thrown e
        | _ => Returned tt
        end.
Proof.
  unfold chatLoop. run_proc.
  match goal with
  | |- context [read_lines H R lines ?q] =>
      destruct (read_lines_spec lines q) as (l & Hret & Hobj & Hl & _ & Hi & Ht & _);
      destruct (read_lines H R lines q) as [e p1]
  end.
  cbn [fst snd pthis log] in *. subst e.
  exists ([Did (ConsoleLog started_line); Did (ConsoleLog help_line); CreateInterface] ++ l).
  unfold cleanup. cbn [pworld pthis log]. rewrite Hobj.
  destruct (client (pthis p)) as [info|];
    [destruct (client_transport R (pworld p1));
     [destruct (transport_close R (pworld p1)) as [[e|u] w']|]|].
  - exists [inl e]. cbn [fst snd log]. rewrite Hl, <- !app_assoc.
    rewrite interface_closes_app, transport_closes_app, Hi, Ht.
    repeat split; cbn; auto; discriminate.
  - exists [inr u]. cbn [fst snd log]. rewrite Hl, <- !app_assoc.
    rewrite interface_closes_app, transport_closes_app, Hi, Ht.
    repeat split; cbn; auto; discriminate.
  - exists []. cbn [fst snd log]. rewrite Hl, <- !app_assoc.
    rewrite interface_closes_app, transport_closes_app, Hi, Ht.
    repeat split; cbn; auto.
  - exists []. cbn [fst snd log]. rewrite Hl, <- !app_assoc.
    rewrite interface_closes_app, transport_closes_app, Hi, Ht.
    repeat split; cbn; auto.
Qed.

(** X12.  Without a script argument, or without an API key, [main] ends
    the process with status 1 having printed one error line and nothing
    else: the world is untouched, no client object is kept, no transport is
    created and nothing is launched. *)
Theorem main_needs_argument_and_key argv w :
  length argv < 3 \/ (exists e, new_MCPClient (process_env H) = inl e) ->
  let r := main H argv w in
  ended r = Exited 1 /\
  final_world r = w /\
  object r = None /\
  (exists line, output r = [Did (ConsoleError line)]) /\
  transports (core_events (output r)) = [] /\
  launches (core_events (output r)) = [].
Proof.
  intros Hmissing r. subst r. unfold main.
  destruct (Nat.ltb_spec (length argv) 3) as [Hshort|Hlong].
  - cbn. repeat split. now eexists.
  - destruct Hmissing as [Hshort|[e He]]; [lia|]. rewrite He.
    cbn. repeat split. now eexists.
Qed.

(** X13.  The start of [main] ends in one of two ways.  It returns, with
    the line, close and SIGINT listeners registered, exactly when there is a
    script argument, the constructor succeeds and [connectToServer] on that
    argument succeeds.  Otherwise it ends the process with status 1, an
    error line being the last thing printed and no listener registered.  It
    never exits with status 0 and lets no exception escape. *)
Theorem main_ending argv w :
  let r := main H argv w in
  (ended r = Returned tt \/ ended r = Exited 1) /\
  (ended r = Returned tt <->
     3 <= length argv /\
     exists built,
       new_MCPClient (process_env H) = inr built /\
       fst (connectToServer H (nth 2 argv "") {| world := w; trace := []; this := built |})
         = inr tt) /\
  (ended r = Returned tt ->
     listeners (output r) = [("rl", "line"); ("rl", "close"); ("process", "SIGINT")]) /\
  (ended r = Exited 1 ->
     listeners (output r) = [] /\
     exists before line, output r = before ++ [Did (ConsoleError line)]).
Proof.
  intros r. subst r. unfold main.
  destruct (Nat.ltb_spec (length argv) 3) as [Hshort|Hlong].
  - cbn. split; [now right|]. split; [split; [discriminate|intros [Hlen _]; lia]|].
    split; [discriminate|]. intros _. split; [reflexivity|]. now exists [], [PStr usage].
  - destruct (new_MCPClient (process_env H)) as [e|built].
    + cbn. split; [now right|].
      split; [split; [discriminate|intros (_ & built & Hbuilt & _); discriminate]|].
      split; [discriminate|]. intros _. split; [reflexivity|]. now eexists [], _.
    + unfold startup, method. run_proc.
      destruct (connectToServer H (nth 2 argv "") {| world := w; trace := []; this := built |})
        as [[e|[]] s'] eqn:Hconnect.
      * cbn. split; [now right|].
        split; [split; [discriminate|]|].
        { intros (_ & built' & Hbuilt & Hok). inversion Hbuilt; subst built'.
          rewrite Hconnect in Hok. discriminate. }
        split; [discriminate|]. intros _.
        rewrite listeners_app, listeners_Did. split; [reflexivity|]. now eexists _, _.
      * cbn. split; [now left|].
        split; [split; [intros _; split; [exact Hlong|]|reflexivity]|].
        { exists built. split; [reflexivity|]. now rewrite Hconnect. }
        split; [|discriminate]. intros _.
        rewrite <- !app_assoc, listeners_app, listeners_Did. reflexivity.
Qed.

End CommandLine.

(** ** The further theorems at the scripted runs *)

Lemma first_round_failure_witness :
  fst (processQuery example_host weather_query (connected rate_limited))
    = inl (Error "429 Too Many Requests") /\
  backend_calls (trace (snd (processQuery example_host weather_query (connected rate_limited))))
    = [].
Proof.
  destruct (@first_round_failure _ example_host weather_query (connected rate_limited)
              (inl (Error "429 Too Many Requests"))
              {| chat_answers := []; tool_answers := []; catalog := inr example_catalog |}
              eq_refl) as (Hrun & Hcalls & _).
  { intros completion Heq. discriminate. }
  rewrite Hrun. split; [reflexivity|]. exact Hcalls.
Defined.

Lemma unconnected_query_throws_witness :
  fst (processQuery example_host weather_query (fresh two_calls)) = inl unconnected.
Proof.
  destruct (@unconnected_query_throws _ example_host weather_query (fresh two_calls)
              _ _ _ _ forecast_call [alerts_call] _ eq_refl eq_refl eq_refl eq_refl eq_refl)
    as (tr & _ & Hout & _).
  exact Hout.
Defined.

Lemma unregistered_tool_dispatched_witness :
  exists more,
    backend_calls (trace (snd (processQuery example_host weather_query
                                 (connected asks_unlisted_tool))))
      = ("get_alerts", JObject [("state", JString "CA")]) :: more.
Proof.
  assert (Hconnected : client (this (connected asks_unlisted_tool)) <> None)
    by discriminate.
  assert (Hunlisted :
            ~ In (call_name (tc_function alerts_call))
                 (map (fun t => fn_name (tool_function t))
                    (tools (this (connected asks_unlisted_tool))))).
  { cbn. intros [Heq|[Heq|[]]]; discriminate. }
  destruct (@unregistered_tool_dispatched _ example_host weather_query
              (connected asks_unlisted_tool) _ _ _ _ alerts_call [] _
              Hconnected Hunlisted eq_refl eq_refl eq_refl eq_refl)
    as (tr & more & Htr & Hcalls).
  exists more. rewrite Htr. exact Hcalls.
Defined.

Lemma connect_failure_keeps_registry_witness :
  fst (connectToServer example_host "weather.py" (connected no_catalog))
    = inl (Error "MCP error -32601: Method not found") /\
  tools (this (snd (connectToServer example_host "weather.py" (connected no_catalog))))
    = tools connected_client.
Proof.
  destruct (@connect_failure_keeps_registry _ example_host "weather.py" (connected no_catalog)
              (Error "MCP error -32601: Method not found") eq_refl) as (Htools & _).
  split; [reflexivity|exact Htools].
Defined.

Lemma quit_ends_chat_loop_witness :
  chatLoop example_host ascii_runtime ["hello"; "  QUIT "; "is it raining?"]
    (at_prompt empty_array)
  = chatLoop example_host ascii_runtime ["hello"; "  QUIT "] (at_prompt empty_array).
Proof.
  exact (@quit_ends_chat_loop _ example_host ascii_runtime ["hello"] "  QUIT "
           ["is it raining?"] (at_prompt empty_array) eq_refl).
Defined.

Lemma chat_loop_tears_down_witness :
  fst (chatLoop example_host ascii_runtime ["hello"; "quit"] (at_prompt empty_array))
    = Returned tt /\
  interface_closes
    (log (snd (chatLoop example_host ascii_runtime ["hello"; "quit"] (at_prompt empty_array))))
    = 1 /\
  transport_closes
    (log (snd (chatLoop example_host ascii_runtime ["hello"; "quit"] (at_prompt empty_array))))
    = [inr tt].
Proof.
  destruct (@chat_loop_tears_down _ example_host ascii_runtime ["hello"; "quit"]
              (at_prompt empty_array)) as (body & closes & Hlog & _ & _ & _ & _ & Hend).
  split; [|split; reflexivity].
  rewrite Hend. vm_compute in Hlog.
  destruct closes as [|[e|u] closes]; [reflexivity| |reflexivity].
  exfalso. apply (f_equal transport_closes) in Hlog.
  rewrite transport_closes_app in Hlog. cbn in Hlog.
  destruct (transport_closes body); discriminate.
Defined.

Lemma main_needs_argument_and_key_witness :
  ended (main example_host ["node"; "index.js"] two_calls) = Exited 1 /\
  output (main example_host ["node"; "index.js"] two_calls)
    = [Did (ConsoleError [PStr usage])].
Proof.
  destruct (@main_needs_argument_and_key _ example_host ["node"; "index.js"] two_calls)
    as (Hend & _).
  { left. cbn. lia. }
  split; [exact Hend|reflexivity].
Defined.

Lemma main_ending_witness :
  ended (main example_host ["node"; "index.js"; "weather.py"] two_calls) = Returned tt /\
  listeners (output (main example_host ["node"; "index.js"; "weather.py"] two_calls))
    = [("rl", "line"); ("rl", "close"); ("process", "SIGINT")] /\
  ended (main example_host ["node"; "index.js"; "weather.sh"] two_calls) = Exited 1.
Proof.
  destruct (@main_ending _ example_host ["node"; "index.js"; "weather.py"] two_calls)
    as (_ & Hiff & Hlisten & _).
  assert (Hret : ended (main example_host ["node"; "index.js"; "weather.py"] two_calls)
                 = Returned tt).
  { apply Hiff. split; [cbn; lia|]. exists constructed. split; reflexivity. }
  split; [exact Hret|]. split; [exact (Hlisten Hret)|].
  destruct (@main_ending _ example_host ["node"; "index.js"; "weather.sh"] two_calls)
    as ([Hbad|Hexit] & Hiff' & _).
  - apply Hiff' in Hbad. destruct Hbad as (_ & built & Hbuilt & Hok).
    inversion Hbuilt; subst built. vm_compute in Hok. discriminate.
  - exact Hexit.
Defined.

(** ** The registry in the first request, and the constructor *)

Section Declarations.

Context {W : Type} (H : Host W).

(** X14.  With an empty registry (an object never connected, or a
    backend with an empty catalog) the first request of a query still has a
    [tools] property: the empty array. *)
Theorem empty_registry_sends_empty_tools query s :
  tools (this s) = [] ->
  exists tr req1 later,
    trace (snd (processQuery H query s)) = trace s ++ tr /\
    chat_requests tr = req1 :: later /\
    req_tools req1 = Some [] /\
    req_messages req1 = initial_messages query.
Proof.
  intros Hempty.
  destruct (processQuery_first_request H query s) as (out1 & rest & Htr & _).
  eexists. exists (requestParams (tools (this s)) (initial_messages query)), (chat_requests rest).
  split; [exact Htr|]. split; [rewrite chat_requests_app; reflexivity|].
  rewrite Hempty. split; reflexivity.
Qed.

(** X15.  After a successful connection, the first request of every query
    declares one function per descriptor of the catalog, in catalog order,
    under the descriptor's name, with its description (the empty string when
    it has none), of type [function] and with [strict] false. *)
Theorem declarations_mirror_catalog serverPath s u w1 response w2 query :
  endsWith serverPath ".js" || endsWith serverPath ".py" = true ->
  transport_connect H (server_transport serverPath) (world s) = (inr u, w1) ->
  client_listTools H w1 = (inr response, w2) ->
  let s1 := snd (connectToServer H serverPath s) in
  exists tr req1 later declared,
    trace (snd (processQuery H query s1)) = trace s1 ++ tr /\
    chat_requests tr = req1 :: later /\
    req_tools req1 = Some declared /\
    map (fun t => (tool_type t, fn_name (tool_function t),
                   fn_description (tool_function t), fn_strict (tool_function t))) declared
      = map (fun t => ("function", mcp_name t, or_empty (mcp_description t), Some false))
          (lt_tools response).
Proof.
  intros Hext Hconnect Hlist s1. subst s1.
  rewrite (connectToServer_registers H serverPath s Hext Hconnect Hlist).
  cbn [snd].
  match goal with
  | |- context [processQuery H query ?st] =>
      destruct (processQuery_first_request H query st) as (out1 & rest & Htr & _)
  end.
  cbn [this tools] in Htr.
  eexists. exists (requestParams (map register_tool (lt_tools response)) (initial_messages query)).
  exists (chat_requests rest). eexists.
  split; [exact Htr|]. split; [rewrite chat_requests_app; reflexivity|].
  split; [reflexivity|]. rewrite !map_map. reflexivity.
Qed.

End Declarations.

(** X16.  The constructor throws exactly when [OPENAI_API_KEY] is missing
    or empty.  Otherwise the object has that key, the base URL of
    [OPENAI_API_BASE] (the default one when that is missing or empty), no
    client and an empty registry. *)
Theorem constructor_outcomes env :
  (new_MCPClient env = inl (Error "OPENAI_API_KEY is required") <->
     OPENAI_API_KEY env = None \/ OPENAI_API_KEY env = Some "") /\
  (forall key,
     OPENAI_API_KEY env = Some key -> key <> "" ->
     new_MCPClient env
       = inr {| openai :=
                  {| apiKey := key;
                     baseURL := match OPENAI_API_BASE env with
                                | None | Some "" => default_baseURL
                                | Some base => base
                                end |};
                client := None;
                tools := [] |}).
Proof.
  unfold new_MCPClient, or_default. split.
  - destruct (OPENAI_API_KEY env) as [[|a key]|]; split; auto; try discriminate.
    intros [Heq|Heq]; discriminate.
  - intros key -> Hkey. destruct key as [|a key]; [contradiction|].
    destruct (OPENAI_API_BASE env) as [[|b base]|]; reflexivity.
Qed.

Lemma empty_registry_sends_empty_tools_witness :
  exists req1 later,
    chat_requests (trace (snd (processQuery example_host weather_query (fresh two_calls))))
      = req1 :: later /\
    req_tools req1 = Some [].
Proof.
  destruct (@empty_registry_sends_empty_tools _ example_host weather_query (fresh two_calls)
              eq_refl) as (tr & req1 & later & Htr & Hchat & Htools & _).
  exists req1, later. rewrite Htr. split; [exact Hchat|exact Htools].
Defined.

Lemma declarations_mirror_catalog_witness :
  let s1 := snd (connectToServer example_host "weather.py" (fresh two_calls)) in
  exists req1 later declared,
    chat_requests (skipn (length (trace s1))
                     (trace (snd (processQuery example_host weather_query s1))))
      = req1 :: later /\
    req_tools req1 = Some declared /\
    map (fun t => fn_description (tool_function t)) declared
      = [""; "Get weather forecast for a location"].
Proof.
  destruct (@declarations_mirror_catalog _ example_host "weather.py" (fresh two_calls)
              tt two_calls example_catalog two_calls weather_query eq_refl eq_refl eq_refl)
    as (tr & req1 & later & declared & Htr & Hchat & Htools & Hmirror).
  exists req1, later, declared. cbn zeta. rewrite Htr.
  rewrite skipn_app, skipn_all, Nat.sub_diag. cbn [skipn app].
  split; [exact Hchat|]. split; [exact Htools|].
  apply (f_equal (map (fun q => snd (fst q)))) in Hmirror.
  rewrite !map_map in Hmirror. exact Hmirror.
Defined.

Lemma constructor_outcomes_witness :
  new_MCPClient {| OPENAI_API_KEY := Some ""; OPENAI_API_BASE := None; OPENAI_MODEL := None |}
    = inl (Error "OPENAI_API_KEY is required") /\
  new_MCPClient example_env = inr constructed.
Proof.
  split.
  - apply (proj1 (constructor_outcomes _)). now right.
  - exact (proj2 (constructor_outcomes example_env) "sk-example" eq_refl
             ltac:(discriminate)).
Defined.

(** ** The trace is write-only

    This is what lets [method] run a method from an empty trace and move its
    events to the log. *)

Section Frame.

Context {W : Type}.

Lemma with_trace_twice (s : St W) t1 t2 : with_trace (with_trace s t1) t2 = with_trace s t2.
Proof. reflexivity. Qed.

Lemma with_trace_same (s : St W) : with_trace s (trace s) = s.
Proof. now destruct s. Qed.

Lemma appends_at {A} (m : M W A) (s : St W) :
  appends m ->
  m s = (fst (m (with_trace s [])),
         with_trace (snd (m (with_trace s []))) (trace s ++ trace (snd (m (with_trace s []))))).
Proof. intros Hm. rewrite <- (with_trace_same s) at 1. apply Hm. Qed.

Lemma appends_ret {A} (a : A) : appends (W := W) (ret a).
Proof. intros s t. cbn. unfold with_trace. cbn. now rewrite app_nil_r. Qed.

Lemma appends_throw {A} (e : exn) : appends (W := W) (A := A) (throw e).
Proof. intros s t. cbn. unfold with_trace. cbn. now rewrite app_nil_r. Qed.

Lemma appends_emit (ev : event) : appends (W := W) (emit ev).
Proof. intros s t. reflexivity. Qed.

Lemma appends_get_this : appends (W := W) get_this.
Proof. intros s t. cbn. unfold with_trace. cbn. now rewrite app_nil_r. Qed.

Lemma appends_set_this (c : MCPClient) : appends (W := W) (set_this c).
Proof. intros s t. cbn. unfold with_trace. cbn. now rewrite app_nil_r. Qed.

Lemma appends_remote {A} (oracle : W -> (exn + A) * W) (ev : exn + A -> event) :
  appends (remote oracle ev).
Proof.
  intros s t. unfold remote. cbn [with_trace world trace this].
  destruct (oracle (world s)) as [out w']. reflexivity.
Qed.

Lemma appends_bind {A B} (m : M W A) (k : A -> M W B) :
  appends m -> (forall a, appends (k a)) -> appends (bind m k).
Proof.
  intros Hm Hk s t. unfold bind. rewrite (Hm s t).
  destruct (m (with_trace s [])) as [[e|a] s1]; cbn [fst snd].
  - reflexivity.
  - rewrite (Hk a s1 (t ++ trace s1)), (appends_at s1 (Hk a)).
    cbn [fst snd]. unfold with_trace. cbn [world trace this]. now rewrite app_assoc.
Qed.

Lemma appends_try_catch {A} (m : M W A) (h : exn -> M W A) :
  appends m -> (forall e, appends (h e)) -> appends (try_catch m h).
Proof.
  intros Hm Hh s t. unfold try_catch. rewrite (Hm s t).
  destruct (m (with_trace s [])) as [[e|a] s1]; cbn [fst snd].
  - rewrite (Hh e s1 (t ++ trace s1)), (appends_at s1 (Hh e)).
    cbn [fst snd]. unfold with_trace. cbn [world trace this]. now rewrite app_assoc.
  - reflexivity.
Qed.

Lemma appends_for_of {X V} (body : X -> V -> M W V) (xs : list X) :
  (forall x v, appends (body x v)) -> forall v, appends (for_of xs body v).
Proof.
  intros Hbody. induction xs as [|x xs IH]; intros v; cbn [for_of].
  - apply appends_ret.
  - apply appends_bind; [apply Hbody|exact IH].
Qed.

Lemma appends_processQuery (H : Host W) query : appends (processQuery H query).
Proof.
  unfold processQuery.
  apply appends_try_catch.
  - apply appends_bind; [apply appends_get_this|intros self].
    apply appends_bind; [apply appends_emit|intros _].
    apply appends_bind; [apply appends_remote|intros completion].
    apply appends_bind.
    { unfold first_message. destruct (choices completion);
        [apply appends_throw|apply appends_ret]. }
    intros assistantMessage. destruct (tool_calls assistantMessage) as [calls|].
    + apply appends_bind.
      { apply appends_for_of. intros toolCall [results messages]. unfold dispatch.
        apply appends_bind.
        { unfold lift_result. destruct (JSON_parse H _);
            [apply appends_throw|apply appends_ret]. }
        intros toolArgs. apply appends_bind.
        { unfold callTool. apply appends_bind; [apply appends_get_this|intros self'].
          destruct (client self'); [apply appends_remote|apply appends_throw]. }
        intros result. apply appends_bind; [apply appends_emit|intros _].
        apply appends_ret. }
      intros vars. apply appends_bind; [apply appends_emit|intros _].
      apply appends_bind; [apply appends_remote|intros finalResponse].
      apply appends_bind.
      { unfold first_message. destruct (choices finalResponse);
          [apply appends_throw|apply appends_ret]. }
      intros finalMessage. apply appends_ret.
    + apply appends_ret.
  - intros error. apply appends_bind; [apply appends_emit|intros _]. apply appends_throw.
Qed.

Lemma appends_connectToServer (H : Host W) serverPath : appends (connectToServer H serverPath).
Proof.
  unfold connectToServer.
  destruct (negb (endsWith serverPath ".js") && negb (endsWith serverPath ".py"));
    [apply appends_throw|].
  apply appends_bind; [apply appends_emit|intros _].
  apply appends_try_catch.
  - apply appends_bind; [apply appends_emit|intros _].
    apply appends_bind; [apply appends_get_this|intros self].
    apply appends_bind; [apply appends_set_this|intros _].
    apply appends_bind; [apply appends_remote|intros _].
    apply appends_bind; [apply appends_remote|intros response].
    apply appends_bind; [apply appends_get_this|intros self'].
    apply appends_bind; [apply appends_set_this|intros _].
    apply appends_bind; [apply appends_get_this|intros self''].
    apply appends_emit.
  - intros error. apply appends_bind; [apply appends_emit|intros _]. apply appends_throw.
Qed.

End Frame.

(** A method that only appends to the trace does from any trace what
    [method] records of it: the same outcome, world and object, and the same
    events, added to the trace it started from. *)
Lemma method_agrees {W A} (m : M W A) (p : Proc W) (t : list event) :
  appends m ->
  exists tr,
    m {| world := pworld p; trace := t; this := pthis p |}
      = (match fst (method m p) with
         | Returned a => inr a
         | Thrown e => inl e
         | Exited _ => inl (Error "unreachable")
         end,
         {| world := pworld (snd (method m p));
            trace := t ++ tr;
            this := pthis (snd (method m p)) |}) /\
    log (snd (method m p)) = log p ++ map Did tr.
Proof.
  intros Hm.
  pose proof (Hm {| world := pworld p; trace := []; this := pthis p |} t) as Hrun.
  unfold with_trace in Hrun. cbn [world trace this] in Hrun.
  unfold method.
  destruct (m {| world := pworld p; trace := []; this := pthis p |}) as [out s'].
  cbn [fst snd pworld pthis log] in *. exists (trace s').
  split; [|reflexivity]. rewrite Hrun. now destruct out.
Qed.
